(** * DailyTracker: time arithmetic, date ranges, tag filter and weekly summary

    A shallow embedding of the computational core of the DailyTracker
    application and the properties its specification states about it.

    Sources embedded here:
    - [client/src/lib/utils.ts]: [formatMinutes], [timeDifferenceInMinutes],
      [calculateEndTime], [getDateRange], [formatTime], [formatDate],
      [groupActivitiesByDate], [getTodayDate], [getCurrentTime];
    - [client/src/components/activity-list.tsx]: the parameters that the
      query of the list sends;
    - [client/src/components/project-tag-selector.tsx]: [addTag],
      [removeTag], [createTag];
    - [server/storage.ts]: [getActivitiesByProjectTag], and on a model of
      the two tables [getProjectTagByName], [createProjectTag],
      [getActivityById], [createActivity], [deleteActivity],
      [initializeDefaultTags];
    - [server/routes.ts]: the body of the [/api/summary] handler with its
      dates, and the choice of the [/api/activities] handler.

    Conventions of the embedding.
    - A JavaScript number that holds an integer (minute counts, time values,
      calendar fields) is a [Z].  Sums, differences, products and [%] of such
      numbers are exact in binary64 as long as the values stay below 2^53 in
      magnitude, which is the range the development is meant for.
    - A quotient that need not be an integer ([a / b * 100] before
      [Math.round]) is computed as JavaScript computes it: every operation
      rounds its exact result to the nearest binary64 value, ties to even.
      The type [number] carries the finite values as rationals, the two
      infinities and NaN.  The zero of the model is unsigned.
    - [Math.floor (n / 60)] on non-negative integers is floor division;
      [Math_floor_div_60] shows that the binary64 quotient has that floor.
    - A [Date] is its time value in milliseconds since the epoch, [None] for
      an invalid date.  The wall clock and the zone of the host, which the
      code reads through [new Date()] and the local-time accessors, are
      explicit arguments [now] and [tza]; the zone is a fixed offset from
      UTC (no daylight-saving transitions).
    - A [Map] is an association list in insertion order.
    - A table of the database is the list of its rows in insertion order,
      with the next value of its [serial] column; every statement
      succeeds. *)

From Stdlib Require Import ZArith QArith Qround Qpower Qabs Qcanon.
From Stdlib Require Import Lia Lqa List String Ascii Bool DecimalString.
From Stdlib Require Floats.
From Stdlib Require DecimalPos DecimalZ OrderedTypeEx.
From Stdlib Require Import Permutation Sorted.
Import ListNotations.

(* ================================================================= *)
(** * The JavaScript values the program computes with *)

Module JS.

(** ** Numbers: binary64 arithmetic *)

Local Open Scope Q_scope.

(** Nearest integer, ties to the even one. *)
Definition nearestEven (q : Q) : Z :=
  let f := Qfloor q in
  match Qcompare (q - inject_Z f) (1 # 2) with
  | Lt => f
  | Gt => (f + 1)%Z
  | Eq => if Z.even f then f else (f + 1)%Z
  end.

(** The binade of a positive rational: the [e] with [2^e <= q < 2^(e+1)]. *)
Definition floorLog2 (q : Q) : Z :=
  let e := (Z.log2 (Qnum q) - Z.log2 (Zpos (Qden q)))%Z in
  if Qle_bool (2 ^ e) q then e else (e - 1)%Z.

(** Exponent of the unit in the last place: 53 significant bits, and the
    fixed spacing [2^-1074] of the subnormal range below [2^-1022]. *)
Definition ulpExponent (q : Q) : Z := (Z.max (floorLog2 q) (-1022) - 52)%Z.

Definition roundPositive (q : Q) : Q :=
  let E := ulpExponent q in inject_Z (nearestEven (q / 2 ^ E)) * 2 ^ E.

(** Round to nearest, ties to even, with an unbounded exponent range. *)
Definition binary64 (q : Q) : Q :=
  Qred (match q ?= 0 with
        | Eq => 0
        | Gt => roundPositive q
        | Lt => - roundPositive (- q)
        end).

Inductive number : Type :=
| Finite (q : Q)
| Infinity (negative : bool)
| NaN.

(** The Number nearest to an exact result; overflow gives an infinity. *)
Definition round64 (q : Q) : number :=
  let r := binary64 q in
  if Qle_bool (2 ^ 1024) (Qabs r) then Infinity (negb (Qle_bool 0 r)) else Finite r.

Definition of_Z (z : Z) : number := Finite (inject_Z z).

Definition isNegative (q : Q) : bool := negb (Qle_bool 0 q).

(** [a / b] *)
Definition div (a b : number) : number :=
  match a, b with
  | NaN, _ | _, NaN => NaN
  | Finite x, Finite y =>
      if Qeq_bool y 0
      then (if Qeq_bool x 0 then NaN else Infinity (isNegative x))
      else round64 (x / y)
  | Finite _, Infinity _ => Finite 0
  | Infinity s, Finite y => Infinity (xorb s (isNegative y))
  | Infinity _, Infinity _ => NaN
  end.

(** [a * b] *)
Definition mul (a b : number) : number :=
  match a, b with
  | NaN, _ | _, NaN => NaN
  | Finite x, Finite y => round64 (x * y)
  | Finite x, Infinity s =>
      if Qeq_bool x 0 then NaN else Infinity (xorb (isNegative x) s)
  | Infinity s, Finite y =>
      if Qeq_bool y 0 then NaN else Infinity (xorb s (isNegative y))
  | Infinity s, Infinity t => Infinity (xorb s t)
  end.

(** [a <= b]; false as soon as one side is NaN. *)
Definition leb (a b : number) : bool :=
  match a, b with
  | NaN, _ | _, NaN => false
  | Infinity true, _ => true
  | _, Infinity false => true
  | Finite x, Finite y => Qle_bool x y
  | _, _ => false
  end.

(** [Math.round]: the nearest integer, a tie going up. *)
Definition Math_round (a : number) : number :=
  match a with
  | Finite q => Finite (inject_Z (Qfloor (q + (1 # 2))))
  | _ => a
  end.

(** [Math.floor] *)
Definition Math_floor (a : number) : number :=
  match a with
  | Finite q => Finite (inject_Z (Qfloor q))
  | _ => a
  end.

(** [Math.min] of two arguments. *)
Definition Math_min (a b : number) : number :=
  match a, b with
  | NaN, _ | _, NaN => NaN
  | _, _ => if leb a b then a else b
  end.

(** ** Strings *)

Local Open Scope string_scope.

(** [s.split(sep)] for a one-character separator. *)
Fixpoint split (sep : ascii) (s : string) : list string :=
  match s with
  | EmptyString => [EmptyString]
  | String c rest =>
      if Ascii.eqb c sep then EmptyString :: split sep rest
      else match split sep rest with
           | piece :: pieces => String c piece :: pieces
           | [] => [String c EmptyString]
           end
  end.

(** [Number(s)] on the strings made of decimal digits only (the empty
    string is 0).  Every other string is outside the fragment: [None]. *)
Definition Number_ (s : string) : option Z :=
  option_map Z.of_uint (NilEmpty.uint_of_string s).

(** [n.toString()] for an integer [n]. *)
Definition toString (n : Z) : string := NilZero.string_of_int (Z.to_int n).

Fixpoint repeatChar (c : ascii) (n : nat) : string :=
  match n with
  | O => EmptyString
  | S k => String c (repeatChar c k)
  end.

(** [s.padStart(targetLength, fill)] for a one-character filler. *)
Definition padStart (targetLength : nat) (fill : ascii) (s : string) : string :=
  repeatChar fill (targetLength - String.length s) ++ s.

(** [array.includes(x)] on an array of strings. *)
Definition includes (x : string) (xs : list string) : bool :=
  existsb (String.eqb x) xs.

(** ** Map: keys in insertion order *)

Definition Map : Type := list (string * Z).

Fixpoint Map_get (m : Map) (k : string) : option Z :=
  match m with
  | [] => None
  | (k', v) :: rest => if String.eqb k' k then Some v else Map_get rest k
  end.

(** [m.set(k, v)] overwrites in place the entry of a key already present and
    appends a new key at the end. *)
Fixpoint Map_set (m : Map) (k : string) (v : Z) : Map :=
  match m with
  | [] => [(k, v)]
  | (k', v') :: rest =>
      if String.eqb k' k then (k', v) :: rest else (k', v') :: Map_set rest k v
  end.

Definition Map_size (m : Map) : Z := Z.of_nat (List.length m).

Definition Map_entries (m : Map) : list (string * Z) := m.

(** ** Exceptions

    A computation that may throw is an [option]; [None] is the exception. *)

Definition bind {A B : Type} (x : option A) (k : A -> option B) : option B :=
  match x with
  | Some a => k a
  | None => None
  end.

Notation "x <- e ;; k" := (bind e (fun x => k))
  (at level 61, e at next level, right associativity).

End JS.

(* ================================================================= *)
(** * Dates: the time-value arithmetic behind the [Date] methods used *)

Module JSDate.

Local Open Scope Z_scope.

Definition msPerDay : Z := 86400000.

Definition Day (t : Z) : Z := t / msPerDay.
Definition TimeWithinDay (t : Z) : Z := t mod msPerDay.

(** Day number of the first day of year [y]. *)
Definition DayFromYear (y : Z) : Z :=
  365 * (y - 1970) + (y - 1969) / 4 - (y - 1901) / 100 + (y - 1601) / 400.

Definition DaysInYear (y : Z) : Z :=
  if (y mod 4 =? 0) && (negb (y mod 100 =? 0) || (y mod 400 =? 0))
  then 366 else 365.

(** The year whose first day is the latest one not after day [d]: an
    estimate from the mean year length, corrected by one either way. *)
Definition YearFromDay (d : Z) : Z :=
  let y := 1970 + d * 400 / 146097 in
  if d <? DayFromYear y then y - 1
  else if DayFromYear (y + 1) <=? d then y + 1
  else y.

Definition YearFromTime (t : Z) : Z := YearFromDay (Day t).

Definition InLeapYear (t : Z) : Z :=
  if DaysInYear (YearFromTime t) =? 366 then 1 else 0.

Definition DayWithinYear (t : Z) : Z := Day t - DayFromYear (YearFromTime t).

(** Day within the year of the first day of month [m] (0 = January). *)
Definition monthStart (leap m : Z) : Z :=
  match m with
  | 0 => 0
  | 1 => 31
  | 2 => 59 + leap
  | 3 => 90 + leap
  | 4 => 120 + leap
  | 5 => 151 + leap
  | 6 => 181 + leap
  | 7 => 212 + leap
  | 8 => 243 + leap
  | 9 => 273 + leap
  | 10 => 304 + leap
  | _ => 334 + leap
  end.

Definition MonthFromTime (t : Z) : Z :=
  let d := DayWithinYear t in
  let leap := InLeapYear t in
  if d <? 31 then 0
  else if d <? 59 + leap then 1
  else if d <? 90 + leap then 2
  else if d <? 120 + leap then 3
  else if d <? 151 + leap then 4
  else if d <? 181 + leap then 5
  else if d <? 212 + leap then 6
  else if d <? 243 + leap then 7
  else if d <? 273 + leap then 8
  else if d <? 304 + leap then 9
  else if d <? 334 + leap then 10
  else 11.

Definition DateFromTime (t : Z) : Z :=
  DayWithinYear t - monthStart (InLeapYear t) (MonthFromTime t) + 1.

(** 0 is Sunday; day 0 (1 January 1970) was a Thursday. *)
Definition WeekDay (t : Z) : Z := (Day t + 4) mod 7.

(** The day number of [date] in month [month] of [year]; months and dates
    outside their range carry over. *)
Definition MakeDay (year month date : Z) : Z :=
  let ym := year + month / 12 in
  let mn := month mod 12 in
  let leap := if DaysInYear ym =? 366 then 1 else 0 in
  DayFromYear ym + monthStart leap mn + date - 1.

Definition MakeDate (day time : Z) : Z := day * msPerDay + time.

(** A time value beyond 8.64e15 ms from the epoch is not a date. *)
Definition TimeClip (t : Z) : option Z :=
  if Z.abs t <=? 8640000000000000 then Some t else None.

Section Zone.

(** Offset of local time from UTC, in milliseconds. *)
Variable tza : Z.

Definition LocalTime (t : Z) : Z := t + tza.
Definition UTC (t : Z) : Z := t - tza.

(** The state of a [Date] object. *)
Definition Date : Type := option Z.

(** [d.setHours(0, 0, 0, 0)] *)
Definition setHours0 (d : Date) : Date :=
  match d with
  | None => None
  | Some t => TimeClip (UTC (MakeDate (Day (LocalTime t)) 0))
  end.

Definition getDate (d : Date) : option Z := option_map (fun t => DateFromTime (LocalTime t)) d.
Definition getDay (d : Date) : option Z := option_map (fun t => WeekDay (LocalTime t)) d.
Definition getFullYear (d : Date) : option Z := option_map (fun t => YearFromTime (LocalTime t)) d.
Definition getMonth (d : Date) : option Z := option_map (fun t => MonthFromTime (LocalTime t)) d.

(** [d.setDate(dt)]; a [dt] that is NaN, or an invalid [d], leaves an
    invalid date. *)
Definition setDate (d : Date) (dt : option Z) : Date :=
  match d, dt with
  | Some t, Some n =>
      let lt := LocalTime t in
      TimeClip (UTC (MakeDate (MakeDay (YearFromTime lt) (MonthFromTime lt) n)
                              (TimeWithinDay lt)))
  | _, _ => None
  end.

(** [new Date(year, month, 1)]: local midnight; a year from 0 to 99 is
    taken in the twentieth century. *)
Definition newDateYM1 (year month : option Z) : Date :=
  match year, month with
  | Some y, Some m =>
      let yr := if (0 <=? y) && (y <=? 99) then 1900 + y else y in
      TimeClip (UTC (MakeDate (MakeDay yr m 1) 0))
  | _, _ => None
  end.

End Zone.

(** Decimal digits of a non-negative integer, zero padded to [width]. *)
Definition pad (width : nat) (n : Z) : string :=
  JS.padStart width "0"%char (JS.toString n).

(** The year of the ISO format: four digits from 0 to 9999, otherwise a
    sign and six digits. *)
Definition yearField (y : Z) : string :=
  if ((0 <=? y) && (y <=? 9999))%Z then pad 4 y
  else ((if (y <? 0)%Z then "-" else "+") ++ pad 6 (Z.abs y))%string.

(** [d.toISOString()]: the UTC fields; [None] is the RangeError thrown on
    an invalid date. *)
Definition toISOString (d : option Z) : option string :=
  match d with
  | None => None
  | Some t =>
      let w := TimeWithinDay t in
      Some (yearField (YearFromTime t) ++ "-" ++ pad 2 (MonthFromTime t + 1)
            ++ "-" ++ pad 2 (DateFromTime t)
            ++ "T" ++ pad 2 (w / 3600000) ++ ":" ++ pad 2 (w / 60000 mod 60)
            ++ ":" ++ pad 2 (w / 1000 mod 60) ++ "." ++ pad 3 (w mod 1000) ++ "Z")%string
  end.

(** ** Time of day *)

Definition HourFromTime (t : Z) : Z := (t / 3600000) mod 24.
Definition MinFromTime (t : Z) : Z := (t / 60000) mod 60.

(** [d.getHours()] and [d.getMinutes()], in local time. *)
Definition getHours (tza : Z) (d : Date) : option Z :=
  option_map (fun t => HourFromTime (LocalTime tza t)) d.

Definition getMinutes (tza : Z) (d : Date) : option Z :=
  option_map (fun t => MinFromTime (LocalTime tza t)) d.

(** [new Date(value)] for a number of milliseconds. *)
Definition newDateOfValue (value : Z) : Date := TimeClip value.

End JSDate.

(* ================================================================= *)
(** * client/src/lib/utils.ts *)

Module Utils.

Import JS JSDate.
Local Open Scope Z_scope.
Local Open Scope string_scope.

(** [formatMinutes]: format minutes to readable time. *)
Definition formatMinutes (minutes : Z) : string :=
  let hours := minutes / 60 in
  let mins := Z.rem minutes 60 in
  if (hours =? 0)%Z then toString mins ++ "m"
  else toString hours ++ "h " ++ toString mins ++ "m".

(** [const [hours, minutes] = time.split(':').map(Number)]: the first two
    pieces, each converted.  [None] when one of them is missing or is not a
    digit string. *)
Definition splitTime (time : string) : option (Z * Z) :=
  match map Number_ (split ":" time) with
  | Some hours :: Some minutes :: _ => Some (hours, minutes)
  | _ => None
  end.

(** [timeDifferenceInMinutes]: time difference in minutes, an end time
    earlier than the start time counting as the following day. *)
Definition timeDifferenceInMinutes (startTime endTime : string) : option Z :=
  match splitTime startTime, splitTime endTime with
  | Some (startHours, startMinutes), Some (endHours, endMinutes) =>
      let totalMinutes := (endHours * 60 + endMinutes) - (startHours * 60 + startMinutes) in
      Some (if (totalMinutes <? 0)%Z then totalMinutes + 24 * 60 else totalMinutes)
  | _, _ => None
  end.

(** [calculateEndTime]: end time from start time and duration. *)
Definition calculateEndTime (startTime : string) (durationMinutes : Z) : option string :=
  match splitTime startTime with
  | Some (hours, minutes) =>
      let totalMinutes := hours * 60 + minutes + durationMinutes in
      let newHours := Z.rem (totalMinutes / 60) 24 in
      let newMinutes := Z.rem totalMinutes 60 in
      Some (padStart 2 "0" (toString newHours) ++ ":" ++ padStart 2 "0" (toString newMinutes))
  | None => None
  end.

Record DateRange : Type := { startDate : string; endDate : string }.

(** [d.toISOString().split('T')[0]] *)
Definition isoDay (d : Date) : option string :=
  option_map (fun s => hd "" (split "T" s)) (toISOString d).

(** Arithmetic on a value that may be NaN. *)
Definition subtract (a : option Z) (b : option Z) : option Z :=
  match a, b with
  | Some x, Some y => Some (x - y)
  | _, _ => None
  end.

Section Host.

(** What [new Date()] reads, and the zone offset of the host. *)
Variables (now tza : Z).

(** [getDateRange]: date range for filtering.  [None] is the RangeError
    of [toISOString] on an invalid date. *)
Definition getDateRange (filter : string) : option DateRange :=
  let today := setHours0 tza (Some now) in
  todayStr <- isoDay today ;;
  if filter =? "today" then
    Some {| startDate := todayStr; endDate := todayStr |}
  else if filter =? "yesterday" then
    let yesterday := today in
    let yesterday := setDate tza yesterday (subtract (getDate tza yesterday) (Some 1)) in
    yesterdayStr <- isoDay yesterday ;;
    Some {| startDate := yesterdayStr; endDate := yesterdayStr |}
  else if filter =? "thisWeek" then
    let startOfWeek := today in
    let dayOfWeek := getDay tza today in
    let startOfWeek := setDate tza startOfWeek (subtract (getDate tza today) dayOfWeek) in
    startStr <- isoDay startOfWeek ;;
    Some {| startDate := startStr; endDate := todayStr |}
  else if filter =? "lastWeek" then
    let endOfLastWeek := today in
    let dayOfWeek := getDay tza today in
    let endOfLastWeek :=
      setDate tza endOfLastWeek (subtract (subtract (getDate tza today) dayOfWeek) (Some 1)) in
    let startOfLastWeek := endOfLastWeek in
    let startOfLastWeek :=
      setDate tza startOfLastWeek (subtract (getDate tza endOfLastWeek) (Some 6)) in
    startStr <- isoDay startOfLastWeek ;;
    endStr <- isoDay endOfLastWeek ;;
    Some {| startDate := startStr; endDate := endStr |}
  else if filter =? "thisMonth" then
    let startOfMonth := newDateYM1 tza (getFullYear tza today) (getMonth tza today) in
    startStr <- isoDay startOfMonth ;;
    Some {| startDate := startStr; endDate := todayStr |}
  else
    let thirtyDaysAgo := today in
    let thirtyDaysAgo := setDate tza thirtyDaysAgo (subtract (getDate tza today) (Some 30)) in
    startStr <- isoDay thirtyDaysAgo ;;
    Some {| startDate := startStr; endDate := todayStr |}.

End Host.

(** [formatTime]: time in 12-hour format. *)
Definition formatTime (time : string) : option string :=
  match splitTime time with
  | Some (hours, minutes) =>
      let period := if (hours >=? 12)%Z then "PM" else "AM" in
      let displayHours := if (Z.rem hours 12 =? 0)%Z then 12 else Z.rem hours 12 in
      Some (toString displayHours ++ ":" ++ padStart 2 "0" (toString minutes) ++ " " ++ period)
  | None => None
  end.

(** One entry of the array that [groupActivitiesByDate] returns. *)
Module Group.
Record t (A : Type) : Type := { date : string; activities : list A }.
Arguments date {A} _.
Arguments activities {A} _.
End Group.

Section Grouping.

(** The elements are of any type with a [date]; [localeCompare] is the
    collation of the host. *)
Context {A : Type}.
Variable dateOf : A -> string.
Variable localeCompare : string -> string -> Z.

(** A [Map] from dates to arrays, keys in insertion order. *)
Definition Grouped : Type := list (string * list A).

Fixpoint grouped_has (grouped : Grouped) (k : string) : bool :=
  match grouped with
  | [] => false
  | (k', _) :: rest => String.eqb k' k || grouped_has rest k
  end.

Fixpoint grouped_set (grouped : Grouped) (k : string) (v : list A) : Grouped :=
  match grouped with
  | [] => [(k, v)]
  | (k', v') :: rest =>
      if String.eqb k' k then (k', v) :: rest else (k', v') :: grouped_set rest k v
  end.

(** [grouped.get(k)!.push(x)]: the array stored under [k] gets [x] at its
    end.  The code calls it for a key that is present. *)
Fixpoint grouped_push (grouped : Grouped) (k : string) (x : A) : Grouped :=
  match grouped with
  | [] => []
  | (k', v) :: rest =>
      if String.eqb k' k then (k', (v ++ [x])%list) :: rest
      else (k', v) :: grouped_push rest k x
  end.

(** The body of the loop over the activities. *)
Definition groupStep (grouped : Grouped) (activity : A) : Grouped :=
  let grouped :=
    if negb (grouped_has grouped (dateOf activity))
    then grouped_set grouped (dateOf activity) []
    else grouped in
  grouped_push grouped (dateOf activity) activity.

(** [array.sort(compare)]: the sort is stable, and for a comparator that
    orders the elements consistently every stable sort gives the same
    array; this one inserts each element before the first element of the
    sorted rest that it does not have to follow. *)
Fixpoint insertSorted {B : Type} (compare : B -> B -> Z) (x : B) (sorted : list B) : list B :=
  match sorted with
  | [] => [x]
  | y :: rest =>
      if (compare x y <=? 0)%Z then x :: y :: rest
      else y :: insertSorted compare x rest
  end.

Fixpoint Array_sort {B : Type} (compare : B -> B -> Z) (l : list B) : list B :=
  match l with
  | [] => []
  | x :: rest => insertSorted compare x (Array_sort compare rest)
  end.

(** [groupActivitiesByDate]: group activities by date for display, newest
    date first. *)
Definition groupActivitiesByDate (activities : list A) : list (Group.t A) :=
  let grouped := fold_left groupStep activities [] in
  Array_sort (fun a b => localeCompare (Group.date b) (Group.date a))
       (map (fun entry => {| Group.date := fst entry; Group.activities := snd entry |})
            grouped).

End Grouping.

Section Clock.

(** What [new Date()] reads, the zone offset of the host, and the rendering
    of [new Date(dateStr).toLocaleDateString('en-US', ...)]. *)
Variables (now tza : Z).
Variable toLocaleDateString : string -> string.

(** [formatDate]: date for display. *)
Definition formatDate (dateStr : string) : option string :=
  let today := setHours0 tza (Some now) in
  let yesterday := today in
  let yesterday := setDate tza yesterday (subtract (getDate tza yesterday) (Some 1)) in
  todayStr <- isoDay today ;;
  if dateStr =? todayStr then Some "Today"
  else
    yesterdayStr <- isoDay yesterday ;;
    if dateStr =? yesterdayStr then Some "Yesterday"
    else Some (toLocaleDateString dateStr).

(** [getTodayDate]: today's date in YYYY-MM-DD format. *)
Definition getTodayDate : option string := isoDay (Some now).

(** [getCurrentTime]: current time in HH:MM format. *)
Definition getCurrentTime : option string :=
  match getHours tza (Some now), getMinutes tza (Some now) with
  | Some h, Some m =>
      let hours := padStart 2 "0" (toString h) in
      let minutes := padStart 2 "0" (toString m) in
      Some (hours ++ ":" ++ minutes)
  | _, _ => None
  end.

End Clock.

End Utils.

(* ================================================================= *)
(** * server/storage.ts *)

Module Storage.

Import JS.

Record Activity : Type := {
  id : Z;
  description : string;
  date : string;
  startTime : string;
  endTime : option string;
  durationMinutes : Z;
  projectTags : list string;
  createdAt : Z
}.

Section DatabaseStorage.

(** The rows that the query of [getAllActivities] returns, in its order
    (date descending, then start time ascending). *)
Variable rows : list Activity.

Definition getAllActivities : list Activity := rows.

(** [getActivitiesByProjectTag]: all activities are loaded and filtered. *)
Definition getActivitiesByProjectTag (tagName : string) : list Activity :=
  let allActivities := getAllActivities in
  filter (fun activity => includes tagName (projectTags activity)) allActivities.

End DatabaseStorage.

(** ** The database

    The two tables the storage class uses, each the list of its rows in
    the order they were inserted, and the sequences of their [serial]
    columns: the value the next inserted row takes as its [id].  No
    statement fails. *)

Local Open Scope Z_scope.

Module ProjectTag.
Record t : Type := { id : Z; name : string }.
End ProjectTag.

(** The fields of a new activity: all but [id] and [createdAt]. *)
Module InsertActivity.
Record t : Type := {
  description : string;
  date : string;
  startTime : string;
  endTime : option string;
  durationMinutes : Z;
  projectTags : list string
}.
End InsertActivity.

Record Database : Type := {
  projectTagsTable : list ProjectTag.t;
  projectTagsSerial : Z;
  activitiesTable : list Activity;
  activitiesSerial : Z
}.

(** [getProjectTagByName]: the first row with that name, if any. *)
Definition getProjectTagByName (db : Database) (name : string) : option ProjectTag.t :=
  find (fun tag => String.eqb (ProjectTag.name tag) name) (projectTagsTable db).

(** [createProjectTag]: the existing tag of that name, or a new row. *)
Definition createProjectTag (db : Database) (name : string) : ProjectTag.t * Database :=
  match getProjectTagByName db name with
  | Some existingTag => (existingTag, db)
  | None =>
      let row := {| ProjectTag.id := projectTagsSerial db; ProjectTag.name := name |} in
      (row,
       {| projectTagsTable := projectTagsTable db ++ [row];
          projectTagsSerial := projectTagsSerial db + 1;
          activitiesTable := activitiesTable db;
          activitiesSerial := activitiesSerial db |})
  end.

(** [for (const tagName of tags) await this.createProjectTag({ name: tagName })] *)
Definition createProjectTags (db : Database) (tags : list string) : Database :=
  fold_left (fun db tagName => snd (createProjectTag db tagName)) tags db.

(** [getActivityById]: the first row with that id, if any. *)
Definition getActivityById (db : Database) (activityId : Z) : option Activity :=
  find (fun activity => id activity =? activityId) (activitiesTable db).

(** [createActivity]: the tags are created first, then the row is inserted
    with the time [now] of [new Date()]. *)
Definition createActivity (db : Database) (insertActivity : InsertActivity.t) (now : Z)
  : Activity * Database :=
  let db := createProjectTags db (InsertActivity.projectTags insertActivity) in
  let row :=
    {| id := activitiesSerial db;
       description := InsertActivity.description insertActivity;
       date := InsertActivity.date insertActivity;
       startTime := InsertActivity.startTime insertActivity;
       endTime := InsertActivity.endTime insertActivity;
       durationMinutes := InsertActivity.durationMinutes insertActivity;
       projectTags := InsertActivity.projectTags insertActivity;
       createdAt := now |} in
  (row,
   {| projectTagsTable := projectTagsTable db;
      projectTagsSerial := projectTagsSerial db;
      activitiesTable := activitiesTable db ++ [row];
      activitiesSerial := activitiesSerial db + 1 |}).

(** [deleteActivity]: whether a row was deleted, and the table without the
    rows of that id. *)
Definition deleteActivity (db : Database) (activityId : Z) : bool * Database :=
  let result := filter (fun activity => id activity =? activityId) (activitiesTable db) in
  (Z.of_nat (List.length result) >? 0,
   {| projectTagsTable := projectTagsTable db;
      projectTagsSerial := projectTagsSerial db;
      activitiesTable :=
        filter (fun activity => negb (id activity =? activityId)) (activitiesTable db);
      activitiesSerial := activitiesSerial db |}).

Definition defaultTags : list string :=
  ["Website Redesign"; "Client Meeting"; "Documentation"; "Research"; "Development"]%string.

(** [initializeDefaultTags] *)
Definition initializeDefaultTags (db : Database) : Database :=
  createProjectTags db defaultTags.

(** ** The read operations of the interface, as the routes use them *)

Module IStorage.
Record t : Type := {
  getAllActivities : list Activity;
  getActivitiesByDate : string -> list Activity;
  getActivitiesByDateRange : string -> string -> list Activity;
  getActivitiesByProjectTag : string -> list Activity
}.
End IStorage.

End Storage.

(* ================================================================= *)
(** * server/routes.ts: the [/api/summary] handler *)

Module Routes.

Import JS Storage.
Local Open Scope Z_scope.
Local Open Scope string_scope.

(** [activities.reduce((sum, activity) => sum + activity.durationMinutes, 0)] *)
Definition totalMinutesOf (activities : list Activity) : Z :=
  fold_left (fun sum activity => sum + durationMinutes activity) activities 0.

Definition weekTargetMinutes : Z := 1440.

(** [Math.min(Math.round((weekMinutes / weekTargetMinutes) * 100), 100)] *)
Definition weekProgress (weekMinutes : Z) : number :=
  Math_min (Math_round (mul (div (of_Z weekMinutes) (of_Z weekTargetMinutes)) (of_Z 100)))
           (of_Z 100).

(** [x || 0] on the result of [Map.get]. *)
Definition orZero (x : option Z) : Z :=
  match x with
  | Some v => if (v =? 0)%Z then 0 else v
  | None => 0
  end.

(** The two nested loops that fill [projectMinutes]. *)
Definition addActivity (projectMinutes : Map) (activity : Activity) : Map :=
  fold_left
    (fun projectMinutes tag =>
       let minutes := orZero (Map_get projectMinutes tag) in
       Map_set projectMinutes tag (minutes + durationMinutes activity))
    (projectTags activity) projectMinutes.

Definition projectMinutesOf (weekActivities : list Activity) : Map :=
  fold_left addActivity weekActivities [].

(** The loop over [projectMinutes.entries()], from [maxMinutes = 0] and
    [maxProject = ""]. *)
Definition maxStep (acc : Z * string) (entry : string * Z) : Z * string :=
  let '(maxMinutes, maxProject) := acc in
  let '(project, minutes) := entry in
  if (minutes >? maxMinutes)%Z then (minutes, project) else (maxMinutes, maxProject).

Definition maxEntry (projectMinutes : Map) : Z * string :=
  fold_left maxStep (Map_entries projectMinutes) (0, "").

Record TopProject : Type := { name : string; minutes : Z; percentage : number }.

Definition topProjectOf (weekActivities : list Activity) : TopProject :=
  let weekMinutes := totalMinutesOf weekActivities in
  let projectMinutes := projectMinutesOf weekActivities in
  if (Map_size projectMinutes >? 0)%Z then
    let '(maxMinutes, maxProject) := maxEntry projectMinutes in
    let percentage :=
      if (weekMinutes >? 0)%Z
      then Math_round (mul (div (of_Z maxMinutes) (of_Z weekMinutes)) (of_Z 100))
      else of_Z 0 in
    {| name := maxProject; minutes := maxMinutes; percentage := percentage |}
  else {| name := "None"; minutes := 0; percentage := of_Z 0 |}.

(** The handler's local [formatTime]. *)
Definition formatTime (minutes : Z) : string :=
  let hours := minutes / 60 in
  let mins := Z.rem minutes 60 in
  toString hours ++ "h " ++ toString mins ++ "m".

(** The expression of [comparedToYesterday]. *)
Definition comparedToYesterdayOf (todayMinutes yesterdayMinutes : Z) : number :=
  if (yesterdayMinutes >? 0)%Z
  then Math_round (mul (div (of_Z (todayMinutes - yesterdayMinutes)) (of_Z yesterdayMinutes))
                       (of_Z 100))
  else of_Z 0.

Module Today.
Record t : Type := { totalTime : string; totalMinutes : Z; comparedToYesterday : number }.
End Today.

Module Week.
Record t : Type :=
  { totalTime : string; totalMinutes : Z; target : string; progress : number }.
End Week.

Module Top.
Record t : Type := { name : string; time : string; percentage : number }.
End Top.

Record Summary : Type := { today : Today.t; week : Week.t; topProject : Top.t }.

(** The summary object, from the three query results. *)
Definition summary (todayActivities yesterdayActivities weekActivities : list Activity)
  : Summary :=
  let todayMinutes := totalMinutesOf todayActivities in
  let yesterdayMinutes := totalMinutesOf yesterdayActivities in
  let weekMinutes := totalMinutesOf weekActivities in
  let top := topProjectOf weekActivities in
  {| today :=
       {| Today.totalTime := formatTime todayMinutes;
          Today.totalMinutes := todayMinutes;
          Today.comparedToYesterday := comparedToYesterdayOf todayMinutes yesterdayMinutes |};
     week :=
       {| Week.totalTime := formatTime weekMinutes;
          Week.totalMinutes := weekMinutes;
          Week.target := formatTime weekTargetMinutes;
          Week.progress := weekProgress weekMinutes |};
     topProject :=
       {| Top.name := name top;
          Top.time := formatTime (minutes top);
          Top.percentage := percentage top |} |}.

(** ** The [/api/activities] handler *)

(** The value of a query parameter: absent, a string, or an array or
    object of the query parser. *)
Module Query.
Inductive value : Type := Absent | Text (s : string) | Other.
Record t : Type := { date : value; startDate : value; endDate : value; projectTag : value }.
End Query.

(** [v && typeof v === 'string'] *)
Definition nonEmptyString (v : Query.value) : option string :=
  match v with
  | Query.Text s => if String.eqb s "" then None else Some s
  | _ => None
  end.

(** The activities the handler answers with. *)
Definition listActivities (storage : IStorage.t) (query : Query.t) : list Activity :=
  match nonEmptyString (Query.projectTag query) with
  | Some projectTag => IStorage.getActivitiesByProjectTag storage projectTag
  | None =>
      match nonEmptyString (Query.date query) with
      | Some date => IStorage.getActivitiesByDate storage date
      | None =>
          match nonEmptyString (Query.startDate query), nonEmptyString (Query.endDate query) with
          | Some startDate, Some endDate =>
              IStorage.getActivitiesByDateRange storage startDate endDate
          | _, _ => IStorage.getAllActivities storage
          end
      end
  end.

(** ** The dates of the [/api/summary] handler *)

Module SummaryDates.
Record t : Type :=
  { today : string; yesterday : string; startOfWeekStr : string; endOfWeekStr : string }.
End SummaryDates.

(** Arithmetic on a value that may be NaN. *)
Definition add (a b : option Z) : option Z :=
  match a, b with
  | Some x, Some y => Some (x + y)
  | _, _ => None
  end.

(** The handler reads the clock three times: [new Date()], [Date.now()]
    and [new Date()] again. *)
Definition summaryDates (tza read1 read2 read3 : Z) : option SummaryDates.t :=
  today <- Utils.isoDay (Some read1) ;;
  yesterday <- Utils.isoDay (JSDate.newDateOfValue (read2 - 86400000)) ;;
  let now := Some read3 in
  let dayOfWeek := JSDate.getDay tza now in
  let startOfWeek := now in
  let startOfWeek :=
    JSDate.setDate tza startOfWeek (Utils.subtract (JSDate.getDate tza now) dayOfWeek) in
  let endOfWeek := startOfWeek in
  let endOfWeek :=
    JSDate.setDate tza endOfWeek (add (JSDate.getDate tza startOfWeek) (Some 6)) in
  startOfWeekStr <- Utils.isoDay startOfWeek ;;
  endOfWeekStr <- Utils.isoDay endOfWeek ;;
  Some {| SummaryDates.today := today;
          SummaryDates.yesterday := yesterday;
          SummaryDates.startOfWeekStr := startOfWeekStr;
          SummaryDates.endOfWeekStr := endOfWeekStr |}.

End Routes.

(* ================================================================= *)
(** * client/src/components/activity-list.tsx: the query of the list *)

Module ActivityList.

Import JS JSDate Utils.
Local Open Scope Z_scope.
Local Open Scope string_scope.

Section QueryFn.

(** What [new Date()] reads, and the zone offset of the host. *)
Variables (now tza : Z).

(** The parameters appended for the date filter. *)
Definition dateParams (dateRange : string) : option (list (string * string)) :=
  if dateRange =? "today" then
    today <- isoDay (Some now) ;;
    Some [("date", today)]
  else if dateRange =? "yesterday" then
    let yesterday := Some now in
    let yesterday := setDate tza yesterday (subtract (getDate tza yesterday) (Some 1)) in
    yesterdayStr <- isoDay yesterday ;;
    Some [("date", yesterdayStr)]
  else if dateRange =? "thisWeek" then
    let today := Some now in
    let dayOfWeek := getDay tza today in
    let startOfWeek := today in
    let startOfWeek := setDate tza startOfWeek (subtract (getDate tza today) dayOfWeek) in
    startOfWeekStr <- isoDay startOfWeek ;;
    todayStr <- isoDay today ;;
    Some [("startDate", startOfWeekStr); ("endDate", todayStr)]
  else if dateRange =? "lastWeek" then
    let today := Some now in
    let dayOfWeek := getDay tza today in
    let endOfLastWeek := today in
    let endOfLastWeek :=
      setDate tza endOfLastWeek (subtract (subtract (getDate tza today) dayOfWeek) (Some 1)) in
    let startOfLastWeek := endOfLastWeek in
    let startOfLastWeek :=
      setDate tza startOfLastWeek (subtract (getDate tza endOfLastWeek) (Some 6)) in
    startStr <- isoDay startOfLastWeek ;;
    endStr <- isoDay endOfLastWeek ;;
    Some [("startDate", startStr); ("endDate", endStr)]
  else if dateRange =? "thisMonth" then
    let today := Some now in
    let startOfMonth := newDateYM1 tza (getFullYear tza today) (getMonth tza today) in
    startStr <- isoDay startOfMonth ;;
    endStr <- isoDay today ;;
    Some [("startDate", startStr); ("endDate", endStr)]
  else Some [].

(** The parameters of the request: [projectTag && projectTag !== "all"]
    decides whether the project filter is sent. *)
Definition queryParams (projectTag dateRange : string) : option (list (string * string)) :=
  let params :=
    if negb (projectTag =? "") && negb (projectTag =? "all")
    then [("projectTag", projectTag)] else [] in
  dates <- dateParams dateRange ;;
  Some (params ++ dates)%list.

End QueryFn.

End ActivityList.

(* ================================================================= *)
(** * client/src/components/project-tag-selector.tsx: the selected tags *)

Module ProjectTagSelector.

Import JS.
Local Open Scope string_scope.

Section Selector.

(** [!tag.trim()]: whether a tag is empty or blank. *)
Variable isBlank : string -> bool.

(** [addTag]: the selection that [onChange] receives; the selection as it
    is when the handler returns without calling it. *)
Definition addTag (selectedTags : list string) (tag : string) : list string :=
  if isBlank tag || includes tag selectedTags then selectedTags
  else (selectedTags ++ [tag])%list.

(** [removeTag] *)
Definition removeTag (selectedTags : list string) (tag : string) : list string :=
  filter (fun t => negb (t =? tag)) selectedTags.

(** [createTag]: a new tag from the input. *)
Definition createTag (selectedTags : list string) (inputValue : string) : list string :=
  if negb (inputValue =? "") && negb (includes inputValue selectedTags)
  then addTag selectedTags inputValue
  else selectedTags.

End Selector.

End ProjectTagSelector.

(* ================================================================= *)
(** * Notions the properties are stated with *)

Module Notions.

Import JS JSDate Utils Storage Routes.
Local Open Scope Z_scope.

(** ** Numbers *)

(** Largest integer up to which the Number type counts in steps of one. *)
Definition MAX_SAFE_INTEGER : Z := 2 ^ 53 - 1.

(** [n] is the integer [z]. *)
Definition isInteger (n : number) (z : Z) : bool :=
  match n with
  | Finite (a # 1) => a =? z
  | _ => false
  end.

(** [100 * x / 1440] rounded to the nearest integer, a half going up, in
    exact arithmetic. *)
Definition exactPercentOfTarget (x : Z) : Z := (200 * x + 1440) / 2880.

(** ** The binary64 numbers of the kernel *)

(** A primitive float read as a [number]. *)
Definition number_of_float (f : PrimFloat.float) : number :=
  match FloatOps.Prim2SF f with
  | SpecFloat.S754_zero _ => Finite 0
  | SpecFloat.S754_infinity s => Infinity s
  | SpecFloat.S754_nan => NaN
  | SpecFloat.S754_finite s m e =>
      Finite (Qred ((if s then -1 else 1) * inject_Z (Zpos m) * 2 ^ e)%Q)
  end.

Definition float_of_Z (z : Z) : PrimFloat.float :=
  if z <? 0 then PrimFloat.opp (PrimFloat.of_uint63 (Uint63.of_Z (- z)))
  else PrimFloat.of_uint63 (Uint63.of_Z z).

Definition number_eqb (a b : number) : bool :=
  match a, b with
  | Finite x, Finite y => Qeq_bool x y
  | Infinity s, Infinity t => Bool.eqb s t
  | NaN, NaN => true
  | _, _ => false
  end.

(** [(a / b) * 100] on the primitive floats. *)
Definition primitivePercent (a b : Z) : number :=
  number_of_float
    (PrimFloat.mul (PrimFloat.div (float_of_Z a) (float_of_Z b)) (float_of_Z 100)).

(** The integers from [lo], [n] of them. *)
Definition integersFrom (lo : Z) (n : nat) : list Z :=
  map (fun k => lo + Z.of_nat k) (seq 0 n).

(** ** Clock times *)

Definition isDigit (c : ascii) : bool :=
  (48 <=? Z.of_N (N_of_ascii c)) && (Z.of_N (N_of_ascii c) <=? 57).

Definition digitValue (c : ascii) : Z := Z.of_N (N_of_ascii c) - 48.

(** Hours and minutes written in a five-character time. *)
Definition hoursOf (s : string) : Z :=
  match s with
  | String a (String b _) => 10 * digitValue a + digitValue b
  | _ => 0
  end.

Definition minutesOf (s : string) : Z :=
  match s with
  | String _ (String _ (String _ (String d (String e _)))) => 10 * digitValue d + digitValue e
  | _ => 0
  end.

(** A zero-padded 24-hour [HH:MM] time. *)
Definition wellFormedTime (s : string) : bool :=
  match s with
  | String a (String b (String c (String d (String e EmptyString)))) =>
      isDigit a && isDigit b && Ascii.eqb c ":" && isDigit d && isDigit e
      && (hoursOf s <? 24) && (minutesOf s <? 60)
  | _ => false
  end.

(** Minutes since midnight. *)
Definition clockMinutes (s : string) : Z := hoursOf s * 60 + minutesOf s.

(** ** Lists *)

(** [Subsequence r l]: [r] is [l] with some elements left out, the others in
    their order. *)
Inductive Subsequence {A : Type} : list A -> list A -> Prop :=
| Subsequence_nil : Subsequence [] []
| Subsequence_keep x r l : Subsequence r l -> Subsequence (x :: r) (x :: l)
| Subsequence_skip x r l : Subsequence r l -> Subsequence r (x :: l).

(** Number of activities that carry [tag]. *)
Fixpoint carriers (tag : string) (activities : list Activity) : nat :=
  match activities with
  | [] => O
  | a :: rest =>
      if in_dec string_dec tag (projectTags a)
      then S (carriers tag rest) else carriers tag rest
  end.

(** ** Per-tag totals *)

(** Number of times [tag] is written in a tag list. *)
Definition occurrences (tag : string) (tags : list string) : Z :=
  Z.of_nat (count_occ string_dec tags tag).

(** Minutes credited to [tag]: each activity's duration, once for every
    time the activity lists the tag. *)
Fixpoint creditedMinutes (tag : string) (activities : list Activity) : Z :=
  match activities with
  | [] => 0
  | a :: rest =>
      occurrences tag (projectTags a) * durationMinutes a + creditedMinutes tag rest
  end.

(** Minutes of the activities that carry [tag], each activity counted once. *)
Fixpoint carrierMinutes (tag : string) (activities : list Activity) : Z :=
  match activities with
  | [] => 0
  | a :: rest =>
      (if in_dec string_dec tag (projectTags a) then durationMinutes a else 0)
      + carrierMinutes tag rest
  end.

(** All tags of the activities, in the order they are written. *)
Definition allTags (activities : list Activity) : list string :=
  flat_map projectTags activities.

Definition unseen (x : string) (l : list string) : list string :=
  filter (fun y => negb (String.eqb x y)) l.

(** The distinct elements of a list, in order of first appearance. *)
Fixpoint firstSeen (l : list string) : list string :=
  match l with
  | [] => []
  | x :: rest => x :: unseen x (firstSeen rest)
  end.

(** The keys of a map with the keys [seen] after the elements of [l] have
    been entered one by one. *)
Definition entered (seen l : list string) : list string :=
  fold_left (fun seen x => if in_dec string_dec x seen then seen else (seen ++ [x])%list) l seen.

(** The elements of [l] that are not in [seen]. *)
Definition fresh (seen l : list string) : list string :=
  filter (fun y => if in_dec string_dec y seen then false else true) l.

(** The map with the keys [keys], in that order, and the values [total]. *)
Definition tabulate (total : string -> Z) (keys : list string) : Map :=
  map (fun k => (k, total k)) keys.

Definition update (f : string -> Z) (k : string) (v : Z) : string -> Z :=
  fun x => if String.eqb k x then v else f x.

(** [FirstMaximum total keys k]: [k] is a key of greatest total, and the
    keys before it have strictly smaller totals. *)
Definition FirstMaximum (total : string -> Z) (keys : list string) (k : string) : Prop :=
  exists before after,
    keys = (before ++ k :: after)%list /\
    (forall k', In k' before -> total k' < total k) /\
    (forall k', In k' after -> total k' <= total k).

(** ** Days *)

(** [c] occurs in [s]. *)
Fixpoint contains (c : ascii) (s : string) : bool :=
  match s with
  | EmptyString => false
  | String c' rest => Ascii.eqb c' c || contains c rest
  end.

(** The [YYYY-MM-DD] form of the day with number [n]. *)
Definition dayString (n : Z) : string :=
  let t := n * msPerDay in
  (yearField (YearFromTime t) ++ "-" ++ pad 2 (MonthFromTime t + 1)
   ++ "-" ++ pad 2 (DateFromTime t))%string.

(** ** Sample data *)

Definition sample (minutes : Z) (tags : list string) : Activity :=
  {| id := 1; description := "work"; date := "2024-01-01"; startTime := "09:00";
     endTime := None; durationMinutes := minutes; projectTags := tags; createdAt := 0 |}.

(** Wednesday 10 January 2024, 11:00 UTC. *)
Definition wednesdayNoon : Z := 1704884400000.

(** One hour east of Greenwich. *)
Definition utcPlus1 : Z := 3600000.

(** ** Clock times, continued *)

(** The character of a decimal digit. *)
Definition digitChar (n : Z) : ascii := ascii_of_N (Z.to_N (48 + n)).

(** The zero-padded 24-hour time [m] minutes after midnight. *)
Definition clockTime (m : Z) : string :=
  (padStart 2 "0" (toString (m / 60)) ++ ":" ++ padStart 2 "0" (toString (m mod 60)))%string.

(** ** Clocks and days, continued *)

(** A host less than a day from UTC whose clock is not before 1970 and not
    within forty days of the last time value of a [Date]. *)
Definition ordinaryClock (now tza : Z) : Prop :=
  - msPerDay < tza < msPerDay /\ 0 <= now <= 8640000000000000 - 40 * msPerDay.

(** The local day of [now], its day of the week and day of the month. *)
Definition localDay (now tza : Z) : Z := Day (LocalTime tza now).
Definition localWeekDay (now tza : Z) : Z := WeekDay (LocalTime tza now).
Definition localDate (now tza : Z) : Z := DateFromTime (LocalTime tza now).

(** The UTC day in which the local day of [now] begins. *)
Definition midnightDay (now tza : Z) : Z := Day (localDay now tza * msPerDay - tza).

(** ** Requests *)

(** The value the server reads for [key] from the parameters of a request
    in which no key is repeated. *)
Fixpoint parameter (key : string) (params : list (string * string)) : Query.value :=
  match params with
  | [] => Query.Absent
  | (k, v) :: rest => if String.eqb k key then Query.Text v else parameter key rest
  end.

(** The query object of [/api/activities] for those parameters. *)
Definition queryOf (params : list (string * string)) : Query.t :=
  {| Query.date := parameter "date" params;
     Query.startDate := parameter "startDate" params;
     Query.endDate := parameter "endDate" params;
     Query.projectTag := parameter "projectTag" params |}.

(** ** Groups *)

(** The entries of the dates [dates], each with the activities of [l] of
    that date in their order. *)
Definition groupedBy {A : Type} (dateOf : A -> string) (l : list A) (dates : list string)
  : list (string * list A) :=
  map (fun k => (k, filter (fun a => String.eqb (dateOf a) k) l)) dates.

(** Comparison of strings by their character codes, as a comparator. *)
Definition compareByCode (a b : string) : Z :=
  match String.compare a b with
  | Lt => -1
  | Eq => 0
  | Gt => 1
  end.

(** ** Databases *)

(** The database before the first statement: no rows, both sequences at
    their first value. *)
Definition emptyDatabase : Database :=
  {| projectTagsTable := []; projectTagsSerial := 1;
     activitiesTable := []; activitiesSerial := 1 |}.

Definition tagNames (db : Database) : list string :=
  map ProjectTag.name (projectTagsTable db).

(** What the storage class relies on and keeps: tag names and the ids of
    both tables are unique, the sequences are ahead of the ids in use, and
    every tag of a stored activity has a row in the tag table. *)
Definition consistent (db : Database) : Prop :=
  NoDup (tagNames db)
  /\ NoDup (map ProjectTag.id (projectTagsTable db))
  /\ (forall tag, In tag (projectTagsTable db) -> ProjectTag.id tag < projectTagsSerial db)
  /\ NoDup (map id (activitiesTable db))
  /\ (forall activity, In activity (activitiesTable db) -> id activity < activitiesSerial db)
  /\ (forall activity tagName,
        In activity (activitiesTable db) -> In tagName (projectTags activity) ->
        In tagName (tagNames db)).

(** The writing operations of the storage class. *)
Inductive Operation : Type :=
| CreateProjectTag (name : string)
| CreateActivity (insertActivity : InsertActivity.t) (now : Z)
| DeleteActivity (activityId : Z)
| InitializeDefaultTags.

Definition perform (db : Database) (operation : Operation) : Database :=
  match operation with
  | CreateProjectTag name => snd (createProjectTag db name)
  | CreateActivity insertActivity now => snd (createActivity db insertActivity now)
  | DeleteActivity activityId => snd (deleteActivity db activityId)
  | InitializeDefaultTags => initializeDefaultTags db
  end.

(** A storage to answer requests with. *)
Definition sampleStorage : IStorage.t :=
  {| IStorage.getAllActivities := [sample 60 ["Research"%string]; sample 30 ["Development"%string]];
     IStorage.getActivitiesByDate := fun _ => [];
     IStorage.getActivitiesByDateRange := fun _ _ => [];
     IStorage.getActivitiesByProjectTag :=
       getActivitiesByProjectTag
         [sample 60 ["Research"%string]; sample 30 ["Development"%string]] |}.

Definition sampleInsert : InsertActivity.t :=
  {| InsertActivity.description := "review";
     InsertActivity.date := "2024-01-10";
     InsertActivity.startTime := "09:00";
     InsertActivity.endTime := Some "09:45"%string;
     InsertActivity.durationMinutes := 45;
     InsertActivity.projectTags := ["Research"; "Review"]%string |}.

(** ** The tag selector *)

(** What the user does in the selector: pick a listed tag, confirm the
    text of the input as a new tag, or take a selected tag away. *)
Inductive SelectorEvent : Type :=
| PickTag (tag : string)
| ConfirmInput (inputValue : string)
| TakeAway (tag : string).

Definition handleEvent (isBlank : string -> bool) (selectedTags : list string)
    (event : SelectorEvent) : list string :=
  match event with
  | PickTag tag => ProjectTagSelector.addTag isBlank selectedTags tag
  | ConfirmInput inputValue => ProjectTagSelector.createTag isBlank selectedTags inputValue
  | TakeAway tag => ProjectTagSelector.removeTag selectedTags tag
  end.

End Notions.

(* ================================================================= *)
(** * Properties *)

Import JS JSDate Utils Storage Routes Notions.

(** ** Rounding to binary64 *)

Section Binary64.

Local Open Scope Q_scope.

Lemma nearestEven_bounds q : (Qfloor q <= nearestEven q <= Qfloor q + 1)%Z.
Proof.
  unfold nearestEven. destruct (Qcompare _ _); try destruct (Z.even _); lia.
Qed.

Lemma nearestEven_comp q1 q2 : q1 == q2 -> nearestEven q1 = nearestEven q2.
Proof.
  intros H. unfold nearestEven. rewrite (Qfloor_comp _ _ H).
  assert (E : q1 - inject_Z (Qfloor q2) == q2 - inject_Z (Qfloor q2)) by (rewrite H; reflexivity).
  rewrite (Qcompare_comp _ _ E (1#2) (1#2)) by reflexivity. reflexivity.
Qed.

Lemma nearestEven_inject_Z z : nearestEven (inject_Z z) = z.
Proof.
  unfold nearestEven. rewrite Qfloor_Z.
  destruct (Qcompare_spec (inject_Z z - inject_Z z) (1#2)); try reflexivity; lra.
Qed.

Lemma nearestEven_le_compat q1 q2 : q1 <= q2 -> (nearestEven q1 <= nearestEven q2)%Z.
Proof.
  intros H.
  pose proof (Qfloor_resp_le _ _ H) as Hf.
  pose proof (Qfloor_le q1) as L1. pose proof (Qlt_floor q1) as U1.
  pose proof (Qfloor_le q2) as L2. pose proof (Qlt_floor q2) as U2.
  destruct (Z.eq_dec (Qfloor q1) (Qfloor q2)) as [E | NE].
  - unfold nearestEven. rewrite E in *.
    destruct (Qcompare_spec (q1 - inject_Z (Qfloor q2)) (1#2));
    destruct (Qcompare_spec (q2 - inject_Z (Qfloor q2)) (1#2));
    destruct (Z.even (Qfloor q2)); try lia; lra.
  - pose proof (nearestEven_bounds q1) as [_ B1]. pose proof (nearestEven_bounds q2) as [B2 _].
    lia.
Qed.

Lemma pow2_pos k : 0 < 2 ^ k.
Proof. apply Qpower_0_lt. reflexivity. Qed.

Lemma pow2_add a b : 2 ^ (a + b) == 2 ^ a * 2 ^ b.
Proof. apply Qpower_plus. discriminate. Qed.

Lemma pow2_succ a : 2 ^ (a + 1) == 2 * 2 ^ a.
Proof. rewrite pow2_add. change (2 ^ 1) with 2. ring. Qed.

Lemma pow2_le a b : (a <= b)%Z -> 2 ^ a <= 2 ^ b.
Proof. intros H. apply Qpower_le_compat_l; [exact H | discriminate]. Qed.

Lemma pow2_lt a b : (a < b)%Z -> 2 ^ a < 2 ^ b.
Proof. intros H. apply Qpower_lt_compat_l; [exact H | reflexivity]. Qed.

Lemma pow2_inject a : (0 <= a)%Z -> inject_Z (2 ^ a) == 2 ^ a.
Proof. intros H. rewrite Zpower_Qpower by exact H. reflexivity. Qed.

Lemma pow2_le_inv a b : 2 ^ a < 2 ^ (b + 1) -> (a <= b)%Z.
Proof.
  intros H. apply Qpower_lt_compat_l_inv in H; [lia | reflexivity].
Qed.

Lemma floorLog2_spec q : 0 < q -> 2 ^ floorLog2 q <= q /\ q < 2 ^ (floorLog2 q + 1).
Proof.
  intros Hq. destruct q as [n d].
  assert (Hn : (0 < n)%Z) by (unfold Qlt in Hq; simpl in Hq; lia).
  unfold floorLog2. cbn [Qnum Qden].
  set (a := Z.log2 n). set (b := Z.log2 (Z.pos d)).
  destruct (Z.log2_spec n Hn) as [La Ua]. fold a in La, Ua.
  destruct (Z.log2_spec (Z.pos d) (Pos2Z.is_pos d)) as [Lb Ub]. fold b in Lb, Ub.
  assert (Ha : (0 <= a)%Z) by apply Z.log2_nonneg.
  assert (Hb : (0 <= b)%Z) by apply Z.log2_nonneg.
  rewrite Zle_Qle, pow2_inject in La, Lb by assumption.
  rewrite Zlt_Qlt, pow2_inject in Ua, Ub by lia.
  unfold Z.succ in Ua, Ub. rewrite pow2_succ in Ua, Ub.
  assert (Hm : 2 ^ (a - b) == 2 ^ a / 2 ^ b) by (apply Qpower_minus; discriminate).
  pose proof (pow2_pos a) as Pa. pose proof (pow2_pos b) as Pb.
  assert (Hnd : n # d == inject_Z n / inject_Z (Z.pos d)) by apply Qmake_Qdiv.
  set (N := inject_Z n) in *. set (D := inject_Z (Z.pos d)) in *.
  set (A := 2 ^ a) in *. set (B := 2 ^ b) in *.
  assert (PD : 0 < D) by lra.
  assert (Up : n # d < 2 * (A / B)).
  { rewrite Hnd. apply Qlt_shift_div_r; [exact PD|].
    assert (E : 2 * (A / B) * D == 2 * A * (D / B)) by (field; lra).
    rewrite E. assert (1 <= D / B) by (apply Qle_shift_div_l; lra). nra. }
  assert (Lo : A / B * (1 # 2) < n # d).
  { rewrite Hnd. apply Qlt_shift_div_l; [exact PD|].
    assert (E : A / B * (1 # 2) * D == A * (D / B * (1 # 2))) by (field; lra).
    rewrite E. assert (D / B * (1#2) < 1).
    { assert (D / B < 2) by (apply Qlt_shift_div_r; lra). lra. }
    nra. }
  destruct (Qle_bool (2 ^ (a - b)) (n # d)) eqn:T.
  - apply Qle_bool_iff in T. split; [exact T|]. rewrite pow2_succ, Hm. exact Up.
  - assert (T' : n # d < 2 ^ (a - b)).
    { apply Qnot_le_lt. intros C. apply Qle_bool_iff in C. congruence. }
    replace (a - b - 1 + 1)%Z with (a - b)%Z by lia. split; [|exact T'].
    assert (E : 2 ^ (a - b - 1) == 2 ^ (a - b) * (1 # 2)).
    { replace (a - b - 1)%Z with ((a - b) + (-1))%Z by lia. rewrite pow2_add. reflexivity. }
    rewrite E, Hm. lra.
Qed.

Lemma floorLog2_unique q e : 0 < q -> 2 ^ e <= q -> q < 2 ^ (e + 1) -> floorLog2 q = e.
Proof.
  intros Hq L U. destruct (floorLog2_spec q Hq) as [L' U'].
  assert (floorLog2 q <= e)%Z by (apply pow2_le_inv; lra).
  assert (e <= floorLog2 q)%Z by (apply pow2_le_inv; lra).
  lia.
Qed.

Lemma floorLog2_le_compat q1 q2 : 0 < q1 -> q1 <= q2 -> (floorLog2 q1 <= floorLog2 q2)%Z.
Proof.
  intros H1 H. destruct (floorLog2_spec q1 H1) as [L1 _].
  destruct (floorLog2_spec q2) as [_ U2]; [lra|].
  apply pow2_le_inv. lra.
Qed.

Lemma pow2_split k E : (E <= k)%Z -> 2 ^ k == inject_Z (2 ^ (k - E)) * 2 ^ E.
Proof.
  intros H. rewrite pow2_inject by lia. rewrite <- pow2_add.
  replace (k - E + E)%Z with k by lia. reflexivity.
Qed.

Lemma roundPositive_le_grid q n k :
  (ulpExponent q <= k)%Z -> q <= inject_Z n * 2 ^ k -> roundPositive q <= inject_Z n * 2 ^ k.
Proof.
  intros Hk Hq. unfold roundPositive. set (E := ulpExponent q) in *.
  pose proof (pow2_pos E) as PE.
  rewrite (pow2_split k E Hk) in *.
  rewrite Qmult_assoc, <- inject_Z_mult in *.
  set (m := (n * 2 ^ (k - E))%Z) in *.
  apply Qmult_le_compat_r; [|lra].
  rewrite <- Zle_Qle. rewrite <- (nearestEven_inject_Z m). apply nearestEven_le_compat.
  apply Qle_shift_div_r; assumption.
Qed.

Lemma roundPositive_ge_grid q n k :
  (ulpExponent q <= k)%Z -> inject_Z n * 2 ^ k <= q -> inject_Z n * 2 ^ k <= roundPositive q.
Proof.
  intros Hk Hq. unfold roundPositive. set (E := ulpExponent q) in *.
  pose proof (pow2_pos E) as PE.
  rewrite (pow2_split k E Hk) in *.
  rewrite Qmult_assoc, <- inject_Z_mult in *.
  set (m := (n * 2 ^ (k - E))%Z) in *.
  apply Qmult_le_compat_r; [|lra].
  rewrite <- Zle_Qle. rewrite <- (nearestEven_inject_Z m). apply nearestEven_le_compat.
  apply Qle_shift_div_l; assumption.
Qed.

Lemma roundPositive_le_compat q1 q2 : 0 < q1 -> q1 <= q2 -> roundPositive q1 <= roundPositive q2.
Proof.
  intros H1 H.
  assert (H2 : 0 < q2) by lra.
  pose proof (floorLog2_le_compat q1 q2 H1 H) as He.
  destruct (floorLog2_spec q1 H1) as [_ U1]. destruct (floorLog2_spec q2 H2) as [L2 _].
  destruct (Z.eq_dec (ulpExponent q1) (ulpExponent q2)) as [E | NE].
  - unfold roundPositive. rewrite E. pose proof (pow2_pos (ulpExponent q2)) as PE.
    apply Qmult_le_compat_r; [|lra].
    rewrite <- Zle_Qle. apply nearestEven_le_compat.
    apply Qmult_le_compat_r; [exact H|]. apply Qlt_le_weak, Qinv_lt_0_compat, PE.
  - assert (Hlt : (floorLog2 q1 < floorLog2 q2 /\ -1022 < floorLog2 q2)%Z) by (unfold ulpExponent in NE; lia).
    assert (B1 : roundPositive q1 <= inject_Z 1 * 2 ^ floorLog2 q2).
    { apply roundPositive_le_grid; [unfold ulpExponent; lia|].
      pose proof (pow2_le (floorLog2 q1 + 1) (floorLog2 q2) ltac:(lia)) as P.
      change (inject_Z 1) with 1. lra. }
    assert (B2 : inject_Z 1 * 2 ^ floorLog2 q2 <= roundPositive q2).
    { apply roundPositive_ge_grid; [unfold ulpExponent; lia|]. change (inject_Z 1) with 1. lra. }
    lra.
Qed.

Lemma roundPositive_nonneg q : 0 < q -> 0 <= roundPositive q.
Proof.
  intros H. pose proof (roundPositive_ge_grid q 0 (ulpExponent q) (Z.le_refl _)) as G.
  change (inject_Z 0) with 0 in G. rewrite Qmult_0_l in G. apply G. lra.
Qed.

Lemma floorLog2_comp q1 q2 : 0 < q1 -> q1 == q2 -> floorLog2 q1 = floorLog2 q2.
Proof.
  intros H E. destruct (floorLog2_spec q2) as [L U]; [lra|].
  apply floorLog2_unique; lra.
Qed.

Lemma roundPositive_comp q1 q2 : 0 < q1 -> q1 == q2 -> roundPositive q1 == roundPositive q2.
Proof.
  intros H E. unfold roundPositive, ulpExponent. rewrite (floorLog2_comp q1 q2 H E).
  set (k := (Z.max (floorLog2 q2) (-1022) - 52)%Z).
  assert (E' : q1 / 2 ^ k == q2 / 2 ^ k) by (rewrite E; reflexivity).
  rewrite (nearestEven_comp _ _ E'). reflexivity.
Qed.

Lemma binary64_unfold q :
  binary64 q == match q ?= 0 with Eq => 0 | Gt => roundPositive q | Lt => - roundPositive (- q) end.
Proof. unfold binary64. apply Qred_correct. Qed.

Lemma binary64_comp q1 q2 : q1 == q2 -> binary64 q1 = binary64 q2.
Proof.
  intros E. unfold binary64. apply Qred_complete.
  rewrite (Qcompare_comp q1 q2 E 0 0 (Qeq_refl 0)).
  destruct (Qcompare_spec q2 0) as [H|H|H]; [reflexivity| |].
  - rewrite (roundPositive_comp (- q1) (- q2)); [reflexivity|lra|rewrite E; reflexivity].
  - apply roundPositive_comp; lra.
Qed.

Lemma binary64_0 : binary64 0 = 0.
Proof. reflexivity. Qed.

Lemma binary64_opp q : binary64 (- q) == - binary64 q.
Proof.
  rewrite !binary64_unfold.
  destruct (Qcompare_spec q 0) as [H|H|H]; destruct (Qcompare_spec (- q) 0) as [H'|H'|H'];
    try lra.
  rewrite (roundPositive_comp (- - q) q); [lra|lra|ring].
Qed.

Lemma binary64_le_compat q1 q2 : q1 <= q2 -> binary64 q1 <= binary64 q2.
Proof.
  intros H. rewrite !binary64_unfold.
  destruct (Qcompare_spec q1 0) as [H1|H1|H1]; destruct (Qcompare_spec q2 0) as [H2|H2|H2];
    try lra.
  - pose proof (roundPositive_nonneg q2 H2). lra.
  - pose proof (roundPositive_nonneg (- q1)). lra.
  - pose proof (roundPositive_le_compat (- q2) (- q1)). lra.
  - pose proof (roundPositive_nonneg (- q1)). pose proof (roundPositive_nonneg q2 H2). lra.
  - apply roundPositive_le_compat; assumption.
Qed.

Lemma roundPositive_fix n k :
  (0 < n < 2 ^ 53)%Z -> (-1074 <= k)%Z ->
  roundPositive (inject_Z n * 2 ^ k) == inject_Z n * 2 ^ k.
Proof.
  intros Hn Hk. set (q := inject_Z n * 2 ^ k).
  pose proof (pow2_pos k) as Pk.
  assert (Hn0 : 0 < inject_Z n) by (change 0 with (inject_Z 0); rewrite <- Zlt_Qlt; lia).
  assert (Hq : 0 < q) by (unfold q; nra).
  assert (Hu : (ulpExponent q <= k)%Z).
  { destruct (floorLog2_spec q Hq) as [L _].
    assert (q < 2 ^ (52 + k + 1)).
    { replace (52 + k + 1)%Z with (53 + k)%Z by lia. rewrite pow2_add.
      rewrite <- (pow2_inject 53) by lia. unfold q.
      assert (inject_Z n < inject_Z (2 ^ 53)) by (rewrite <- Zlt_Qlt; lia). nra. }
    assert (floorLog2 q <= 52 + k)%Z by (apply pow2_le_inv; lra).
    unfold ulpExponent. lia. }
  apply Qle_antisym.
  - apply roundPositive_le_grid; [exact Hu | apply Qle_refl].
  - apply roundPositive_ge_grid; [exact Hu | apply Qle_refl].
Qed.

Lemma binary64_fix n k :
  (Z.abs n < 2 ^ 53)%Z -> (-1074 <= k)%Z ->
  binary64 (inject_Z n * 2 ^ k) == inject_Z n * 2 ^ k.
Proof.
  intros Hn Hk. pose proof (pow2_pos k) as Pk. rewrite binary64_unfold.
  destruct (Z.lt_trichotomy n 0) as [N | [N | N]].
  - assert (inject_Z n < 0) by (change 0 with (inject_Z 0); rewrite <- Zlt_Qlt; lia).
    destruct (Qcompare_spec (inject_Z n * 2 ^ k) 0) as [H'|H'|H']; try nra.
    rewrite (roundPositive_comp _ (inject_Z (- n) * 2 ^ k)).
    + rewrite roundPositive_fix by lia. rewrite inject_Z_opp. ring.
    + nra.
    + rewrite inject_Z_opp. ring.
  - subst n. change (inject_Z 0) with 0.
    destruct (Qcompare_spec (0 * 2 ^ k) 0) as [H'|H'|H']; lra.
  - assert (0 < inject_Z n) by (change 0 with (inject_Z 0); rewrite <- Zlt_Qlt; lia).
    destruct (Qcompare_spec (inject_Z n * 2 ^ k) 0) as [H'|H'|H']; try nra.
    apply roundPositive_fix; lia.
Qed.

End Binary64.

(** ** Operations on numbers *)

Section Numbers.

Local Open Scope Q_scope.

Lemma Qle_bool_false x y : Qle_bool x y = false <-> y < x.
Proof.
  split; intros H.
  - apply Qnot_le_lt. intros C. apply Qle_bool_iff in C. congruence.
  - destruct (Qle_bool x y) eqn:E; [|reflexivity].
    apply Qle_bool_iff in E. lra.
Qed.

(** The three outcomes of rounding an exact result. *)
Lemma round64_cases q :
  (round64 q = Finite (binary64 q) /\ - 2 ^ 1024 < binary64 q < 2 ^ 1024)
  \/ (round64 q = Infinity false /\ 2 ^ 1024 <= binary64 q)
  \/ (round64 q = Infinity true /\ binary64 q <= - 2 ^ 1024).
Proof.
  unfold round64. pose proof (pow2_pos 1024) as PT.
  set (T := 2 ^ 1024) in *. set (r := binary64 q).
  destruct (Qle_bool T (Qabs r)) eqn:O.
  - apply Qle_bool_iff in O. right.
    destruct (Qle_bool 0 r) eqn:S; simpl.
    + apply Qle_bool_iff in S. left. split; [reflexivity|].
      rewrite (Qabs_pos r S) in O. exact O.
    + apply Qle_bool_false in S. right. split; [reflexivity|].
      rewrite (Qabs_neg r) in O by lra. lra.
  - apply Qle_bool_false in O. left. split; [reflexivity|].
    apply Qabs_Qlt_condition in O. exact O.
Qed.

Lemma round64_mono q1 q2 : q1 <= q2 -> leb (round64 q1) (round64 q2) = true.
Proof.
  intros H. apply binary64_le_compat in H. pose proof (pow2_pos 1024) as PT.
  destruct (round64_cases q1) as [[E1 B1] | [[E1 B1] | [E1 B1]]];
    destruct (round64_cases q2) as [[E2 B2] | [[E2 B2] | [E2 B2]]];
    rewrite E1, E2; simpl; try reflexivity; try lra.
  apply Qle_bool_iff. exact H.
Qed.

Lemma leb_refl a : a <> NaN -> leb a a = true.
Proof.
  destruct a as [q | [] | ]; simpl; intros H; try reflexivity; try congruence.
  apply Qle_bool_iff. apply Qle_refl.
Qed.

Lemma leb_trans a b c : leb a b = true -> leb b c = true -> leb a c = true.
Proof.
  destruct a as [x | [] | ], b as [y | [] | ], c as [z | [] | ]; simpl;
    try reflexivity; try discriminate.
  rewrite !Qle_bool_iff. intros. lra.
Qed.

Lemma leb_not_NaN a b : leb a b = true -> a <> NaN /\ b <> NaN.
Proof.
  destruct a as [x | [] | ], b as [y | [] | ]; simpl; intros H; split; congruence.
Qed.

Lemma round64_not_NaN q : round64 q <> NaN.
Proof.
  destruct (round64_cases q) as [[E _] | [[E _] | [E _]]]; rewrite E; discriminate.
Qed.

Lemma isNegative_pos c : 0 < c -> isNegative c = false.
Proof.
  intros H. unfold isNegative. apply negb_false_iff, Qle_bool_iff. lra.
Qed.

Lemma Qeq_bool_pos c : 0 < c -> Qeq_bool c 0 = false.
Proof.
  intros H. destruct (Qeq_bool c 0) eqn:E; [|reflexivity].
  apply Qeq_bool_iff in E. lra.
Qed.

(** Division by a positive constant is monotone. *)
Lemma div_mono x y c :
  0 < c -> x <= y -> leb (div (Finite x) (Finite c)) (div (Finite y) (Finite c)) = true.
Proof.
  intros Hc H. simpl. rewrite (Qeq_bool_pos c Hc).
  apply round64_mono. apply Qmult_le_compat_r; [exact H|].
  apply Qlt_le_weak, Qinv_lt_0_compat, Hc.
Qed.

(** Multiplication by a positive constant is monotone. *)
Lemma mul_mono a b c :
  0 < c -> leb a b = true -> leb (mul a (Finite c)) (mul b (Finite c)) = true.
Proof.
  intros Hc H.
  destruct a as [x | [] | ], b as [y | [] | ]; simpl in *;
    rewrite ?(Qeq_bool_pos c Hc), ?(isNegative_pos c Hc); simpl;
    try reflexivity; try discriminate.
  - apply round64_mono. apply Qle_bool_iff in H. apply Qmult_le_compat_r; lra.
  - pose proof (round64_not_NaN (x * c)).
    destruct (round64 (x * c)) as [r | [] | ]; simpl; congruence.
  - pose proof (round64_not_NaN (y * c)).
    destruct (round64 (y * c)) as [r | [] | ]; simpl; congruence.
Qed.

Lemma Math_round_mono a b : leb a b = true -> leb (Math_round a) (Math_round b) = true.
Proof.
  destruct a as [x | [] | ], b as [y | [] | ]; cbn [Math_round leb];
    try reflexivity; try discriminate.
  rewrite !Qle_bool_iff. intros H. rewrite <- Zle_Qle. apply Qfloor_resp_le. lra.
Qed.

Lemma Math_min_mono a b c :
  c <> NaN -> leb a b = true -> leb (Math_min a c) (Math_min b c) = true.
Proof.
  intros Hc H. destruct (leb_not_NaN _ _ H) as [Ha Hb].
  unfold Math_min.
  destruct a as [x | sa | ]; try congruence;
  destruct b as [y | sb | ]; try congruence;
  destruct c as [z | sc | ]; try congruence;
  repeat match goal with |- context [if leb ?u ?v then _ else _] =>
    let E := fresh "E" in destruct (leb u v) eqn:E end;
  try assumption; try (apply leb_refl; discriminate);
  repeat match goal with s : bool |- _ => destruct s end; simpl in *;
  try reflexivity; try discriminate;
  rewrite ?Qle_bool_iff, ?Qle_bool_false in *; try lra.
Qed.

(** The rounding of the model is the rounding of the machine: on these
    operands [(a / b) * 100] is the same number in the model and on the
    primitive binary64 floats, the division by zero included. *)
Lemma percent_agrees_with_primitive_floats :
  forallb (fun x => number_eqb (primitivePercent x 1440)
                               (mul (div (of_Z x) (of_Z 1440)) (of_Z 100)))
          (integersFrom 800 100) = true
  /\ forallb (fun a =>
                forallb (fun b => number_eqb (primitivePercent a b)
                                             (mul (div (of_Z a) (of_Z b)) (of_Z 100)))
                        (integersFrom 0 16))
             (integersFrom (-15) 31) = true.
Proof. split; vm_compute; reflexivity. Qed.

(** A number between two finite ones is finite. *)
Lemma leb_between lo a hi :
  leb (Finite lo) a = true -> leb a (Finite hi) = true ->
  exists r, a = Finite r /\ lo <= r <= hi.
Proof.
  destruct a as [x | [] | ]; simpl; try discriminate.
  rewrite !Qle_bool_iff. intros. exists x. split; [reflexivity | lra].
Qed.

End Numbers.

(** ** The ratios of the summary *)

Section Summary.

Local Open Scope Z_scope.

Lemma inject_Z_pos z : 0 < z -> (0 < inject_Z z)%Q.
Proof. intros H. change 0%Q with (inject_Z 0). rewrite <- Zlt_Qlt. exact H. Qed.

Lemma of_Z_inj a b : of_Z a = of_Z b -> a = b.
Proof. unfold of_Z, inject_Z. congruence. Qed.

Lemma leb_of_Z a b : leb (of_Z a) (of_Z b) = true <-> a <= b.
Proof. unfold of_Z. simpl. rewrite Qle_bool_iff, <- Zle_Qle. reflexivity. Qed.

(** The percentage expression [Math.round((a / b) * 100)] is monotone in
    [a] for a positive [b]. *)
Lemma percent_mono a a' b :
  0 < b -> a <= a' ->
  leb (Math_round (mul (div (of_Z a) (of_Z b)) (of_Z 100)))
      (Math_round (mul (div (of_Z a') (of_Z b)) (of_Z 100))) = true.
Proof.
  intros Hb H. apply Math_round_mono. apply mul_mono; [reflexivity|].
  apply div_mono; [apply inject_Z_pos, Hb | rewrite <- Zle_Qle; exact H].
Qed.

Lemma weekProgress_mono x y : x <= y -> leb (weekProgress x) (weekProgress y) = true.
Proof.
  intros H. unfold weekProgress. apply Math_min_mono; [discriminate|].
  apply percent_mono; [reflexivity | exact H].
Qed.

Lemma Math_min_le a c : a <> NaN -> c <> NaN -> leb (Math_min a c) c = true.
Proof.
  intros Ha Hc. unfold Math_min.
  destruct a as [x | sa | ]; try congruence; destruct c as [z | sc | ]; try congruence;
  match goal with |- context [if leb ?u ?v then _ else _] =>
    let E := fresh "E" in destruct (leb u v) eqn:E end;
  try assumption; apply leb_refl; discriminate.
Qed.

Lemma Math_min_round_integer m k r :
  Math_min (Math_round m) (of_Z k) = Finite r -> exists z, r = inject_Z z.
Proof.
  unfold Math_min, of_Z.
  destruct m as [q | s | ]; cbn [Math_round]; try discriminate.
  - destruct (leb _ _); intros H; injection H as <-; eexists; reflexivity.
  - destruct (leb _ _); intros H; [discriminate|]. injection H as <-. eexists; reflexivity.
Qed.

Lemma weekProgress_0 : weekProgress 0 = of_Z 0.
Proof. vm_compute. reflexivity. Qed.

Lemma weekProgress_target : weekProgress 1440 = of_Z 100.
Proof. vm_compute. reflexivity. Qed.

Lemma weekProgress_integer x :
  0 <= x -> exists p, weekProgress x = of_Z p /\ 0 <= p <= 100.
Proof.
  intros Hx.
  pose proof (weekProgress_mono 0 x Hx) as Lo. rewrite weekProgress_0 in Lo.
  assert (Hi : leb (weekProgress x) (of_Z 100) = true).
  { destruct (leb_not_NaN _ _ Lo) as [_ N]. unfold weekProgress in *.
    apply Math_min_le; [|discriminate].
    intros C. rewrite C in N. apply N. reflexivity. }
  destruct (leb_between _ _ _ Lo Hi) as [r [E [B1 B2]]].
  destruct (Math_min_round_integer _ _ _ E) as [z ->].
  exists z. split; [exact E|]. rewrite <- !Zle_Qle in *. lia.
Qed.


Lemma weekProgress_clamp x : 1440 <= x -> weekProgress x = of_Z 100.
Proof.
  intros Ht. destruct (weekProgress_integer x ltac:(lia)) as [p [E B]].
  pose proof (weekProgress_mono 1440 x Ht) as M.
  rewrite weekProgress_target, E in M. apply leb_of_Z in M.
  rewrite E. f_equal. lia.
Qed.



Lemma isInteger_true n z : isInteger n z = true -> n = of_Z z.
Proof.
  destruct n as [[a [d | d | ]] | | ]; simpl; try discriminate.
  intros H. apply Z.eqb_eq in H. subst. reflexivity.
Qed.

Lemma below_target_table :
  forallb (fun x => isInteger (weekProgress x)
                      (if x =? 828 then 57 else Z.min (exactPercentOfTarget x) 100))
          (map Z.of_nat (seq 0 1440)) = true.
Proof. vm_compute. reflexivity. Qed.

(** Against exact arithmetic: the progress is the exact percentage rounded
    half up and clamped, except at 828 minutes, where the binary64 product
    falls just below 57.5. *)
Lemma weekProgress_exact x :
  0 <= x -> x <> 828 -> weekProgress x = of_Z (Z.min (exactPercentOfTarget x) 100).
Proof.
  intros Hx Hn. destruct (Z_lt_le_dec x 1440) as [Lt | Ge].
  - pose proof below_target_table as T. rewrite forallb_forall in T.
    specialize (T x). apply Z.eqb_neq in Hn. rewrite Hn in T.
    apply isInteger_true, T. apply in_map_iff. exists (Z.to_nat x).
    split; [lia|]. apply in_seq. lia.
  - rewrite (weekProgress_clamp x Ge). f_equal. unfold exactPercentOfTarget.
    assert (100 <= (200 * x + 1440) / 2880) by (apply Z.div_le_lower_bound; lia). lia.
Qed.

Lemma weekProgress_828 :
  weekProgress 828 = of_Z 57 /\ exactPercentOfTarget 828 = 58.
Proof. split; vm_compute; reflexivity. Qed.

Lemma percent_finite a b :
  - 2 ^ 54 <= a <= 2 ^ 54 -> 0 < b ->
  exists z, Math_round (mul (div (of_Z a) (of_Z b)) (of_Z 100)) = of_Z z.
Proof.
  intros Ha Hb.
  assert (Pb : (0 < inject_Z b)%Q) by (apply inject_Z_pos, Hb).
  assert (Lo : leb (round64 (inject_Z (- 2 ^ 54))) (div (of_Z a) (of_Z b)) = true).
  { unfold of_Z, div. rewrite (Qeq_bool_pos _ Pb). apply round64_mono.
    apply Qle_shift_div_l; [exact Pb|]. rewrite <- inject_Z_mult, <- Zle_Qle. nia. }
  assert (Hi : leb (div (of_Z a) (of_Z b)) (round64 (inject_Z (2 ^ 54))) = true).
  { unfold of_Z, div. rewrite (Qeq_bool_pos _ Pb). apply round64_mono.
    apply Qle_shift_div_r; [exact Pb|]. rewrite <- inject_Z_mult, <- Zle_Qle. nia. }
  replace (round64 (inject_Z (- 2 ^ 54))) with (Finite (inject_Z (- 2 ^ 54))) in Lo
    by (vm_compute; reflexivity).
  replace (round64 (inject_Z (2 ^ 54))) with (Finite (inject_Z (2 ^ 54))) in Hi
    by (vm_compute; reflexivity).
  destruct (leb_between _ _ _ Lo Hi) as [r [E [B1 B2]]]. rewrite E.
  assert (Lo' : leb (round64 (inject_Z (- 2 ^ 54) * 100)) (mul (Finite r) (of_Z 100)) = true).
  { unfold of_Z, mul. apply round64_mono. change (inject_Z 100) with 100%Q. lra. }
  assert (Hi' : leb (mul (Finite r) (of_Z 100)) (round64 (inject_Z (2 ^ 54) * 100)) = true).
  { unfold of_Z, mul. apply round64_mono. change (inject_Z 100) with 100%Q. lra. }
  replace (round64 (inject_Z (- 2 ^ 54) * 100)) with (Finite (inject_Z (- 2 ^ 54 * 100))) in Lo'
    by (vm_compute; reflexivity).
  replace (round64 (inject_Z (2 ^ 54) * 100)) with (Finite (inject_Z (2 ^ 54 * 100))) in Hi'
    by (vm_compute; reflexivity).
  destruct (leb_between _ _ _ Lo' Hi') as [r' [E' _]]. rewrite E'.
  cbn [Math_round]. eexists. reflexivity.
Qed.



(** A tie that binary64 loses: 23 minutes more than 40 are 57.5 percent more,
    the product computed is just below, and the result is 57. *)
Lemma comparedToYesterday_63_40 : comparedToYesterdayOf 63 40 = of_Z 57.
Proof. vm_compute. reflexivity. Qed.

(** Without the guard the expression is not a finite number when the
    previous total is zero. *)
Lemma unguarded_ratio_by_zero :
  Math_round (mul (div (of_Z 30) (of_Z 0)) (of_Z 100)) = Infinity false
  /\ Math_round (mul (div (of_Z 0) (of_Z 0)) (of_Z 100)) = NaN.
Proof. split; vm_compute; reflexivity. Qed.

End Summary.

(** ** Floor division *)

Section FloorDivision.

Local Open Scope Q_scope.

Lemma Qfloor_unique q k : inject_Z k <= q -> q < inject_Z (k + 1) -> Qfloor q = k.
Proof.
  intros L U.
  pose proof (Qfloor_le q) as L'. pose proof (Qlt_floor q) as U'.
  assert (A : inject_Z k < inject_Z (Qfloor q + 1)) by lra.
  assert (B : inject_Z (Qfloor q) < inject_Z (k + 1)) by lra.
  rewrite <- Zlt_Qlt in A, B. lia.
Qed.

(** [Math.floor(n / 60)] is the integer quotient: the binary64 quotient of
    an integer below 2^52 by 60 does not reach the next integer. *)
Lemma Math_floor_div_60 n :
  (0 <= n < 2 ^ 52)%Z -> Math_floor (div (of_Z n) (of_Z 60)) = of_Z (n / 60).
Proof.
  intros Hn. unfold of_Z, div. change (Qeq_bool (inject_Z 60) 0) with false. cbv iota.
  set (k := (n / 60)%Z).
  assert (Hk : (0 <= k < 2 ^ 47 - 1)%Z).
  { unfold k. split; [apply Z.div_pos; lia|]. apply Z.div_lt_upper_bound; lia. }
  assert (Hr : (60 * k <= n <= 60 * k + 59)%Z).
  { unfold k. pose proof (Z.mul_div_le n 60 ltac:(lia)).
    pose proof (Z.mod_pos_bound n 60 ltac:(lia)). pose proof (Z.div_mod n 60 ltac:(lia)). lia. }
  set (q := inject_Z n / inject_Z 60).
  assert (Lq : inject_Z k * 2 ^ 0 <= q).
  { unfold q. apply Qle_shift_div_l; [reflexivity|].
    change (2 ^ 0) with 1. rewrite Qmult_1_r, <- inject_Z_mult, <- Zle_Qle. lia. }
  assert (Uq : q <= inject_Z (64 * k + 63) * 2 ^ (-6)).
  { unfold q. apply Qle_shift_div_r; [reflexivity|].
    change (2 ^ (-6)) with (1 # 64). change (inject_Z 60) with 60.
    assert (inject_Z n <= inject_Z (60 * k + 59)) by (rewrite <- Zle_Qle; lia).
    rewrite inject_Z_plus, inject_Z_mult in *.
    change (inject_Z 64) with 64. change (inject_Z 63) with 63.
    change (inject_Z 60) with 60 in *. change (inject_Z 59) with 59 in *. lra. }
  apply binary64_le_compat in Lq, Uq.
  rewrite binary64_fix in Lq by lia. rewrite binary64_fix in Uq by lia.
  change (2 ^ 0) with 1 in Lq. change (2 ^ (-6)) with (1 # 64) in Uq.
  rewrite inject_Z_plus, inject_Z_mult in Uq.
  change (inject_Z 64) with 64 in Uq. change (inject_Z 63) with 63 in Uq.
  assert (Big : inject_Z k + 1 < 2 ^ 1024).
  { pose proof (pow2_lt 47 1024 ltac:(lia)) as P. rewrite <- (pow2_inject 47) in P by lia.
    assert (inject_Z k < inject_Z (2 ^ 47)) by (rewrite <- Zlt_Qlt; lia).
    assert (1 <= inject_Z k + 1).
    { assert (inject_Z 0 <= inject_Z k) by (rewrite <- Zle_Qle; lia).
      change (inject_Z 0) with 0 in *. lra. }
    assert (inject_Z k + 1 <= inject_Z (2 ^ 47)).
    { change 1 with (inject_Z 1). rewrite <- inject_Z_plus, <- Zle_Qle. lia. }
    lra. }
  fold q. destruct (round64_cases q) as [[E _] | [[E B] | [E B]]]; rewrite E.
  - cbn [Math_floor]. do 2 f_equal. apply Qfloor_unique.
    + lra.
    + rewrite inject_Z_plus. change (inject_Z 1) with 1. lra.
  - exfalso. lra.
  - exfalso. pose proof (pow2_pos 1024).
    assert (inject_Z 0 <= inject_Z k) by (rewrite <- Zle_Qle; lia).
    change (inject_Z 0) with 0 in *. lra.
Qed.

End FloorDivision.

(** ** Clock times *)

Section ClockTimes.

Local Open Scope Z_scope.
Local Open Scope string_scope.

Lemma isDigit_cases c :
  isDigit c = true ->
  In c ["0"; "1"; "2"; "3"; "4"; "5"; "6"; "7"; "8"; "9"]%char.
Proof.
  destruct c as [[] [] [] [] [] [] [] []]; vm_compute; intros H; try discriminate;
    repeat (first [left; reflexivity | right]).
Qed.

Ltac each_digit H :=
  apply isDigit_cases in H; cbn [In] in H;
  repeat (destruct H as [H | H]; [subst | ]); [.. | contradiction].

Lemma digit_not_colon c : isDigit c = true -> Ascii.eqb c ":" = false.
Proof. intros H. each_digit H; reflexivity. Qed.

Lemma digitValue_range c : isDigit c = true -> (0 <= digitValue c <= 9)%Z.
Proof. intros H. each_digit H; vm_compute; split; discriminate. Qed.

Lemma Number_two_digits a b :
  isDigit a = true -> isDigit b = true ->
  Number_ (String a (String b "")) = Some (10 * digitValue a + digitValue b)%Z.
Proof. intros Ha Hb. each_digit Ha; each_digit Hb; reflexivity. Qed.

Lemma pad_two_digits a b :
  isDigit a = true -> isDigit b = true ->
  padStart 2 "0" (toString (10 * digitValue a + digitValue b)) = String a (String b "").
Proof. intros Ha Hb. each_digit Ha; each_digit Hb; reflexivity. Qed.

(** What a well-formed time is made of, and how the code reads it. *)
Lemma wellFormedTime_inv s :
  wellFormedTime s = true ->
  splitTime s = Some (hoursOf s, minutesOf s)
  /\ (0 <= hoursOf s < 24)%Z /\ (0 <= minutesOf s < 60)%Z
  /\ s = padStart 2 "0" (toString (hoursOf s)) ++ ":" ++ padStart 2 "0" (toString (minutesOf s)).
Proof.
  destruct s as [|a [|b [|c [|d [|e [|f s]]]]]]; try discriminate.
  unfold wellFormedTime. rewrite !andb_true_iff.
  intros [[[[[[Ha Hb] Hc] Hd] He] Hh] Hm].
  apply Ascii.eqb_eq in Hc. subst c. apply Z.ltb_lt in Hh, Hm.
  pose proof (digitValue_range a Ha). pose proof (digitValue_range b Hb).
  pose proof (digitValue_range d Hd). pose proof (digitValue_range e He).
  cbn [hoursOf minutesOf] in *.
  split; [|split; [lia|split; [lia|]]].
  - unfold splitTime. cbn [split].
    rewrite (digit_not_colon a Ha), (digit_not_colon b Hb),
            (digit_not_colon d Hd), (digit_not_colon e He).
    change (Ascii.eqb ":" ":") with true. cbv iota. cbn [map].
    rewrite (Number_two_digits a b Ha Hb), (Number_two_digits d e Hd He). reflexivity.
  - rewrite (pad_two_digits a b Ha Hb), (pad_two_digits d e Hd He). reflexivity.
Qed.

(** C4.  For well-formed [HH:MM] times the difference is the end minus the
    start in minutes when the end is not clock-earlier, that plus 1440 when
    it is; it lies between 0 and 1439, and it is 0 from a time to itself. *)
Theorem timeDifferenceInMinutes_wraps (startTime endTime : string) :
  wellFormedTime startTime = true -> wellFormedTime endTime = true ->
  exists d,
    timeDifferenceInMinutes startTime endTime = Some d
    /\ (clockMinutes startTime <= clockMinutes endTime ->
        d = clockMinutes endTime - clockMinutes startTime)%Z
    /\ (clockMinutes endTime < clockMinutes startTime ->
        d = clockMinutes endTime - clockMinutes startTime + 1440)%Z
    /\ (0 <= d <= 1439)%Z
    /\ timeDifferenceInMinutes startTime startTime = Some 0%Z.
Proof.
  intros Hs He.
  destruct (wellFormedTime_inv _ Hs) as [Ps [Hsh [Hsm _]]].
  destruct (wellFormedTime_inv _ He) as [Pe [Heh [Hem _]]].
  unfold timeDifferenceInMinutes, clockMinutes. rewrite Ps, Pe.
  eexists. split; [reflexivity|].
  set (t := (hoursOf endTime * 60 + minutesOf endTime
             - (hoursOf startTime * 60 + minutesOf startTime))%Z).
  destruct (Z.ltb_spec t 0); unfold t in *;
    (split; [lia | split; [lia | split; [lia|]]]).
  all: rewrite Z.sub_diag; reflexivity.
Qed.

Lemma timeDifferenceInMinutes_wraps_witness :
  exists d, timeDifferenceInMinutes "23:30" "00:15" = Some d /\ d = 45%Z.
Proof.
  destruct (timeDifferenceInMinutes_wraps "23:30" "00:15" eq_refl eq_refl)
    as [d [E [_ [W _]]]].
  exists d. split; [exact E|]. apply W. vm_compute. reflexivity.
Defined.

(** C10.  For well-formed zero-padded [HH:MM] times, adding the computed
    difference back to the start time gives the end time, character for
    character. *)
Theorem calculateEndTime_timeDifference_roundtrip (startTime endTime : string) :
  wellFormedTime startTime = true -> wellFormedTime endTime = true ->
  exists d,
    timeDifferenceInMinutes startTime endTime = Some d
    /\ calculateEndTime startTime d = Some endTime.
Proof.
  intros Hs He.
  destruct (wellFormedTime_inv _ Hs) as [Ps [Hsh [Hsm _]]].
  destruct (wellFormedTime_inv _ He) as [Pe [Heh [Hem Ee]]].
  unfold timeDifferenceInMinutes, calculateEndTime. rewrite Ps, Pe.
  eexists. split; [reflexivity|].
  set (hs := hoursOf startTime) in *. set (ms := minutesOf startTime) in *.
  set (he := hoursOf endTime) in *. set (me := minutesOf endTime) in *.
  set (d := if (he * 60 + me - (hs * 60 + ms) <? 0)%Z
            then (he * 60 + me - (hs * 60 + ms) + 24 * 60)%Z
            else (he * 60 + me - (hs * 60 + ms))%Z).
  assert (Hd : (0 <= d <= 1439)%Z /\ exists k, (hs * 60 + ms + d = he * 60 + me + 1440 * k /\ 0 <= k <= 1)%Z).
  { unfold d. destruct (Z.ltb_spec (he * 60 + me - (hs * 60 + ms)) 0).
    - split; [lia|]. exists 1%Z. lia.
    - split; [lia|]. exists 0%Z. lia. }
  destruct Hd as [Hd [k [Hk Bk]]].
  assert (Hm : Z.rem (hs * 60 + ms + d) 60 = me).
  { rewrite Z.rem_mod_nonneg by lia. rewrite Hk.
    replace (he * 60 + me + 1440 * k)%Z with (me + (he + 24 * k) * 60)%Z by lia.
    rewrite Z.mod_add by lia. apply Z.mod_small. lia. }
  assert (Hh : Z.rem ((hs * 60 + ms + d) / 60) 24 = he).
  { rewrite Hk.
    replace (he * 60 + me + 1440 * k)%Z with (me + (he + 24 * k) * 60)%Z by lia.
    rewrite Z.div_add by lia. rewrite (Z.div_small me 60) by lia.
    rewrite Z.rem_mod_nonneg by lia.
    replace (0 + (he + 24 * k))%Z with (he + k * 24)%Z by lia.
    rewrite Z.mod_add by lia. apply Z.mod_small. lia. }
  rewrite Hm, Hh. f_equal. symmetry. exact Ee.
Qed.

Lemma calculateEndTime_timeDifference_roundtrip_witness :
  exists d, timeDifferenceInMinutes "23:30" "00:15" = Some d
            /\ calculateEndTime "23:30" d = Some "00:15".
Proof.
  exact (calculateEndTime_timeDifference_roundtrip "23:30" "00:15" eq_refl eq_refl).
Defined.

End ClockTimes.

(** ** The tag filter and the renderings *)

Section TagFilter.

Local Open Scope string_scope.

(** [includes] is membership under exact comparison of the characters. *)
Lemma includes_In x xs : includes x xs = true <-> In x xs.
Proof.
  unfold includes. rewrite existsb_exists. split.
  - intros [y [Hy E]]. apply String.eqb_eq in E. subst. exact Hy.
  - intros H. exists x. split; [exact H | apply String.eqb_refl].
Qed.

Lemma includes_false x xs : includes x xs = false <-> ~ In x xs.
Proof.
  rewrite <- includes_In. destruct (includes x xs); split; congruence.
Qed.

Lemma filter_Subsequence {A} (f : A -> bool) l : Subsequence (filter f l) l.
Proof.
  induction l as [|a l IH]; simpl.
  - constructor.
  - destruct (f a); constructor; exact IH.
Qed.

Lemma getActivitiesByProjectTag_length all tag :
  List.length (getActivitiesByProjectTag all tag) = carriers tag all.
Proof.
  unfold getActivitiesByProjectTag, getAllActivities. induction all as [|a all IH]; simpl; [reflexivity|].
  destruct (in_dec string_dec tag (projectTags a)) as [I | N].
  - apply includes_In in I. rewrite I. simpl. rewrite IH. reflexivity.
  - apply includes_false in N. rewrite N. exact IH.
Qed.

(** C9.  The by-tag filter returns the activities whose tags contain the
    target tag under exact comparison of the strings: the same members, as
    many of them, in the order of the collection it filters, and the empty
    list when no activity has the tag.  It is a total function that builds
    a new list. *)
Theorem getActivitiesByProjectTag_exact (allActivities : list Activity) (tagName : string) :
  let result := getActivitiesByProjectTag allActivities tagName in
  (forall a, In a result <-> In a allActivities /\ In tagName (projectTags a))
  /\ Subsequence result allActivities
  /\ List.length result = carriers tagName allActivities
  /\ ((forall a, In a allActivities -> ~ In tagName (projectTags a)) -> result = [])
  /\ includes "work" ["Work"] = false.
Proof.
  cbv zeta. split; [|split; [|split; [|split]]].
  - intros a. unfold getActivitiesByProjectTag, getAllActivities. rewrite filter_In, includes_In. reflexivity.
  - apply filter_Subsequence.
  - apply getActivitiesByProjectTag_length.
  - intros H. unfold getActivitiesByProjectTag, getAllActivities.
    induction allActivities as [|a l IH]; [reflexivity|]. simpl.
    assert (N : includes tagName (projectTags a) = false).
    { apply includes_false. apply H. left. reflexivity. }
    rewrite N. apply IH. intros b Hb. apply H. right. exact Hb.
  - reflexivity.
Qed.

Lemma getActivitiesByProjectTag_exact_witness :
  getActivitiesByProjectTag [sample 60 ["A"]; sample 30 ["B"]] "C" = [].
Proof.
  apply (getActivitiesByProjectTag_exact [sample 60 ["A"]; sample 30 ["B"]] "C").
  intros a [<- | [<- | []]]; cbn [projectTags sample In]; intuition discriminate.
Defined.

End TagFilter.

Section Formatting.

Local Open Scope Z_scope.
Local Open Scope string_scope.

Lemma formatTime_formatMinutes minutes :
  60 <= minutes -> formatTime minutes = formatMinutes minutes.
Proof.
  intros H. unfold formatTime, formatMinutes.
  assert (1 <= minutes / 60)%Z by (apply Z.div_le_lower_bound; lia).
  destruct (Z.eqb_spec (minutes / 60) 0); [lia | reflexivity].
Qed.

Lemma length_append (s t : string) :
  String.length (s ++ t) = (String.length s + String.length t)%nat.
Proof. induction s as [|c s IH]; simpl; [reflexivity | rewrite IH; reflexivity]. Qed.

Lemma formatTime_below_hour minutes :
  0 <= minutes < 60 ->
  formatTime minutes = "0h " ++ formatMinutes minutes
  /\ formatTime minutes <> formatMinutes minutes.
Proof.
  intros H. unfold formatTime, formatMinutes.
  rewrite (Z.div_small minutes 60) by lia. change (0 =? 0)%Z with true. cbv iota.
  split; [reflexivity|].
  intros C. apply (f_equal String.length) in C.
  change (toString 0 ++ "h " ++ toString (Z.rem minutes 60) ++ "m")
    with ("0h " ++ (toString (Z.rem minutes 60) ++ "m")) in C.
  rewrite length_append in C. simpl in C. lia.
Qed.




End Formatting.

(** ** The top-project ranker *)

Section Ranker.

Local Open Scope Z_scope.

Lemma Map_get_tabulate f ks k :
  Map_get (tabulate f ks) k = if in_dec string_dec k ks then Some (f k) else None.
Proof.
  induction ks as [|x ks IH]; simpl; [reflexivity|].
  destruct (String.eqb_spec x k) as [-> | N].
  - destruct (string_dec k k); [reflexivity | congruence].
  - rewrite IH. destruct (string_dec x k); [congruence|].
    destruct (in_dec string_dec k ks); reflexivity.
Qed.

Lemma tabulate_ext f g ks : (forall k, In k ks -> f k = g k) -> tabulate f ks = tabulate g ks.
Proof.
  intros H. unfold tabulate. apply map_ext_in. intros k Hk. rewrite (H k Hk). reflexivity.
Qed.

Lemma Map_set_tabulate_new f ks k v :
  ~ In k ks -> Map_set (tabulate f ks) k v = tabulate (update f k v) (ks ++ [k]).
Proof.
  induction ks as [|x ks IH]; intros N; simpl.
  - unfold update. rewrite String.eqb_refl. reflexivity.
  - destruct (String.eqb_spec x k) as [-> | D]; [exfalso; apply N; left; reflexivity|].
    rewrite IH by (intros C; apply N; right; exact C).
    unfold update at 2. destruct (String.eqb_spec k x); [congruence | reflexivity].
Qed.

Lemma Map_set_tabulate_old f ks k v :
  NoDup ks -> In k ks -> Map_set (tabulate f ks) k v = tabulate (update f k v) ks.
Proof.
  induction ks as [|x ks IH]; intros ND I; [contradiction|].
  inversion ND as [|? ? Nx ND']; subst. simpl.
  destruct (String.eqb_spec x k) as [-> | D].
  - unfold update at 1. rewrite String.eqb_refl. f_equal.
    apply tabulate_ext. intros y Hy. unfold update.
    destruct (String.eqb_spec k y); [subst; contradiction | reflexivity].
  - destruct I as [-> | I]; [congruence|].
    rewrite (IH ND' I). unfold update at 2.
    destruct (String.eqb_spec k x); [congruence | reflexivity].
Qed.

Lemma orZero_Some v : orZero (Some v) = v.
Proof. simpl. destruct (Z.eqb_spec v 0); congruence. Qed.

Lemma occurrences_cons x t ts :
  occurrences x (t :: ts) = (if String.eqb t x then 1 else 0) + occurrences x ts.
Proof.
  unfold occurrences. simpl.
  destruct (string_dec t x) as [-> | N].
  - rewrite String.eqb_refl. lia.
  - destruct (String.eqb_spec t x); [congruence | lia].
Qed.

(** The inner loop: one activity of duration [d] with the tags [ts]. *)
Lemma credit_tags d ts : forall f ks,
  NoDup ks -> (forall x, ~ In x ks -> f x = 0) ->
  fold_left
    (fun projectMinutes tag =>
       Map_set projectMinutes tag (orZero (Map_get projectMinutes tag) + d))
    ts (tabulate f ks)
  = tabulate (fun x => f x + occurrences x ts * d) (entered ks ts)
  /\ NoDup (entered ks ts)
  /\ (forall x, ~ In x (entered ks ts) -> f x + occurrences x ts * d = 0).
Proof.
  induction ts as [|t ts IH]; intros f ks ND Z0.
  - simpl. split; [|split].
    + apply tabulate_ext. intros k _. unfold occurrences. simpl. lia.
    + exact ND.
    + intros x Hx. unfold occurrences. simpl. rewrite (Z0 x Hx). lia.
  - cbn [fold_left entered]. fold (entered (if in_dec string_dec t ks then ks else ks ++ [t]) ts).
    rewrite Map_get_tabulate.
    assert (V : (if in_dec string_dec t ks then orZero (Some (f t)) else orZero None) = f t).
    { destruct (in_dec string_dec t ks) as [I | N]; [apply orZero_Some|].
      simpl. symmetry. apply Z0, N. }
    assert (S : Map_set (tabulate f ks) t (orZero (if in_dec string_dec t ks then Some (f t) else None) + d)
                = tabulate (update f t (f t + d))
                           (if in_dec string_dec t ks then ks else ks ++ [t])).
    { destruct (in_dec string_dec t ks) as [I | N].
      - rewrite orZero_Some. apply Map_set_tabulate_old; assumption.
      - simpl orZero. rewrite (Z0 t N). apply Map_set_tabulate_new, N. }
    rewrite S. clear S V.
    set (ks' := if in_dec string_dec t ks then ks else ks ++ [t]).
    assert (ND' : NoDup ks').
    { unfold ks'. destruct (in_dec string_dec t ks) as [I | N]; [exact ND|].
      apply NoDup_app; [exact ND | constructor; [intros []|constructor] |].
      intros a Ha [<- | []]. exact (N Ha). }
    assert (Z0' : forall x, ~ In x ks' -> update f t (f t + d) x = 0).
    { intros x Hx. unfold update. destruct (String.eqb_spec t x) as [-> | D].
      - exfalso. apply Hx. unfold ks'.
        destruct (in_dec string_dec x ks); [assumption | apply in_or_app; right; left; reflexivity].
      - apply Z0. intros C. apply Hx. unfold ks'.
        destruct (in_dec string_dec t ks); [assumption | apply in_or_app; left; assumption]. }
    destruct (IH _ _ ND' Z0') as [E [N1 N2]].
    assert (P : forall x, update f t (f t + d) x + occurrences x ts * d
                          = f x + occurrences x (t :: ts) * d).
    { intros x. rewrite occurrences_cons. unfold update.
      destruct (String.eqb_spec t x) as [-> | D]; lia. }
    split; [|split].
    + rewrite E. apply tabulate_ext. intros k _. apply P.
    + exact N1.
    + intros x Hx. rewrite <- P. apply N2, Hx.
Qed.

Lemma entered_app seen l1 l2 : entered seen (l1 ++ l2) = entered (entered seen l1) l2.
Proof. unfold entered. apply fold_left_app. Qed.

(** The outer loop. *)
Lemma credit_activities activities : forall f ks,
  NoDup ks -> (forall x, ~ In x ks -> f x = 0) ->
  fold_left addActivity activities (tabulate f ks)
  = tabulate (fun x => f x + creditedMinutes x activities) (entered ks (allTags activities)).
Proof.
  induction activities as [|a rest IH]; intros f ks ND Z0.
  - simpl. apply tabulate_ext. intros k _. lia.
  - cbn [fold_left]. unfold addActivity at 2.
    destruct (credit_tags (durationMinutes a) (projectTags a) f ks ND Z0) as [E [N1 N2]].
    rewrite E. rewrite (IH _ _ N1 N2).
    unfold allTags. cbn [flat_map]. rewrite entered_app.
    apply tabulate_ext. intros k _. cbn [creditedMinutes]. lia.
Qed.

Lemma projectMinutesOf_tabulate activities :
  projectMinutesOf activities
  = tabulate (fun tag => creditedMinutes tag activities) (entered [] (allTags activities)).
Proof.
  unfold projectMinutesOf. change (@nil (string * Z)) with (tabulate (fun _ => 0) []).
  rewrite credit_activities; [|constructor|reflexivity].
  apply tabulate_ext. intros k _. lia.
Qed.


Lemma filter_twice {A} (p q : A -> bool) l :
  filter p (filter q l) = filter (fun y => q y && p y) l.
Proof.
  induction l as [|a l IH]; simpl; [reflexivity|].
  destruct (q a); simpl; [destruct (p a)|]; rewrite IH; reflexivity.
Qed.

Lemma entered_firstSeen l : forall seen,
  entered seen l = seen ++ fresh seen (firstSeen l).
Proof.
  induction l as [|x rest IH]; intros seen.
  - simpl. rewrite app_nil_r. reflexivity.
  - cbn [entered fold_left firstSeen].
    fold (entered (if in_dec string_dec x seen then seen else seen ++ [x]) rest).
    rewrite IH. unfold fresh, unseen. cbn [filter].
    destruct (in_dec string_dec x seen) as [I | N].
    + f_equal. rewrite filter_twice. apply filter_ext. intros y.
      destruct (String.eqb_spec x y) as [<- | D]; simpl; [|reflexivity].
      destruct (in_dec string_dec x seen); [reflexivity | contradiction].
    + rewrite <- app_assoc. cbn [app]. do 2 f_equal.
      rewrite filter_twice. apply filter_ext. intros y.
      destruct (String.eqb_spec x y) as [<- | D]; simpl.
      * destruct (in_dec string_dec x (seen ++ [x])) as [_ | C]; [reflexivity|].
        exfalso. apply C, in_or_app. right. left. reflexivity.
      * destruct (in_dec string_dec y (seen ++ [x])) as [I1 | N1];
          destruct (in_dec string_dec y seen) as [I2 | N2]; try reflexivity.
        -- apply in_app_or in I1. destruct I1 as [I1 | [E | []]]; [contradiction | congruence].
        -- exfalso. apply N1, in_or_app. left. exact I2.
Qed.

Lemma fresh_nil l : fresh [] l = l.
Proof.
  unfold fresh. induction l as [|y t IH]; cbn [filter]; [reflexivity|].
  destruct (in_dec string_dec y []) as [[] | _]. rewrite IH. reflexivity.
Qed.

Lemma entered_nil l : entered [] l = firstSeen l.
Proof. rewrite entered_firstSeen, fresh_nil. reflexivity. Qed.

Lemma In_unseen x y l : In y (unseen x l) <-> In y l /\ x <> y.
Proof.
  unfold unseen. rewrite filter_In. rewrite negb_true_iff.
  destruct (String.eqb_spec x y); split; intros [H1 H2]; split; congruence.
Qed.

Lemma In_firstSeen y l : In y (firstSeen l) <-> In y l.
Proof.
  induction l as [|x rest IH]; simpl; [reflexivity|].
  rewrite In_unseen, IH. destruct (string_dec x y); tauto.
Qed.

(** The maximum loop, from any starting pair. *)
Lemma maxStep_fold f ks : forall mx mp M P,
  fold_left maxStep (tabulate f ks) (mx, mp) = (M, P) ->
  (M = mx /\ P = mp /\ forall k, In k ks -> f k <= mx)
  \/ (mx < M /\ M = f P /\ FirstMaximum f ks P).
Proof.
  induction ks as [|k ks IH]; intros mx mp M P H.
  - simpl in H. injection H as <- <-. left. repeat split. intros k [].
  - cbn [tabulate map fold_left maxStep] in H. fold (tabulate f ks) in H.
    destruct (Z.gtb_spec (f k) mx) as [G | L].
    + destruct (IH _ _ _ _ H) as [[-> [-> A]] | [G' [E [b [a [-> [B A]]]]]]]; right.
      * split; [lia|]. split; [reflexivity|]. exists [], ks.
        split; [reflexivity|]. split; [intros ? []|exact A].
      * split; [lia|]. split; [exact E|]. exists (k :: b), a.
        split; [reflexivity|]. split; [|exact A].
        intros k' [<- | I]; [lia | apply B, I].
    + destruct (IH _ _ _ _ H) as [[-> [-> A]] | [G' [E [b [a [-> [B A]]]]]]].
      * left. repeat split. intros k' [<- | I]; [lia | apply A, I].
      * right. split; [lia|]. split; [exact E|]. exists (k :: b), a.
        split; [reflexivity|]. split; [|exact A].
        intros k' [<- | I]; [lia | apply B, I].
Qed.

Lemma maxEntry_tabulate f ks :
  ((forall k, In k ks -> f k <= 0) /\ maxEntry (tabulate f ks) = (0, ""%string))
  \/ (exists k, maxEntry (tabulate f ks) = (f k, k) /\ 0 < f k /\ FirstMaximum f ks k).
Proof.
  unfold maxEntry, Map_entries.
  destruct (fold_left maxStep (tabulate f ks) (0, ""%string)) as [M P] eqn:E.
  destruct (maxStep_fold _ _ _ _ _ _ E) as [[-> [-> A]] | [G [-> F]]].
  - left. split; [exact A | reflexivity].
  - right. exists P. repeat split; assumption.
Qed.

Lemma Map_size_tabulate f ks : Map_size (tabulate f ks) = Z.of_nat (List.length ks).
Proof. unfold Map_size, tabulate. rewrite length_map. reflexivity. Qed.

(** No tag at all: the default object. *)
Lemma topProjectOf_no_tags activities :
  allTags activities = [] ->
  topProjectOf activities = {| name := "None"; minutes := 0; percentage := of_Z 0 |}.
Proof.
  intros H. unfold topProjectOf. rewrite projectMinutesOf_tabulate, H. reflexivity.
Qed.

(** Some tag with a positive total: the first of the tags with the greatest
    total, in order of first appearance. *)
Lemma topProjectOf_first_maximum activities :
  (exists tag, In tag (allTags activities) /\ 0 < creditedMinutes tag activities) ->
  exists tag,
    name (topProjectOf activities) = tag
    /\ minutes (topProjectOf activities) = creditedMinutes tag activities
    /\ FirstMaximum (fun t => creditedMinutes t activities)
                    (firstSeen (allTags activities)) tag.
Proof.
  intros [tag [I G]]. unfold topProjectOf.
  rewrite projectMinutesOf_tabulate, entered_nil, Map_size_tabulate.
  set (f := fun t => creditedMinutes t activities).
  set (ks := firstSeen (allTags activities)).
  assert (Ik : In tag ks) by (apply In_firstSeen, I).
  assert (S : (Z.of_nat (List.length ks) >? 0) = true).
  { apply Z.gtb_lt. destruct ks; [contradiction | simpl; lia]. }
  rewrite S.
  destruct (maxEntry_tabulate f ks) as [[A _] | [k [E [Gk F]]]].
  - specialize (A tag Ik). unfold f in A. lia.
  - rewrite E. exists k. cbn [name minutes]. repeat split. exact F.
Qed.

(** Tags, but no positive total: the starting pair of the loop is left. *)
Lemma topProjectOf_no_positive_total activities :
  allTags activities <> [] ->
  (forall tag, In tag (allTags activities) -> creditedMinutes tag activities <= 0) ->
  name (topProjectOf activities) = ""%string /\ minutes (topProjectOf activities) = 0.
Proof.
  intros NE A. unfold topProjectOf.
  rewrite projectMinutesOf_tabulate, entered_nil, Map_size_tabulate.
  set (f := fun t => creditedMinutes t activities).
  set (ks := firstSeen (allTags activities)).
  assert (S : (Z.of_nat (List.length ks) >? 0) = true).
  { apply Z.gtb_lt. destruct (allTags activities) as [|x l] eqn:E; [congruence|].
    unfold ks. simpl. lia. }
  rewrite S.
  destruct (maxEntry_tabulate f ks) as [[_ E] | [k [E [Gk [b [a [F _]]]]]]].
  - rewrite E. split; reflexivity.
  - exfalso. assert (In k (allTags activities)).
    { apply In_firstSeen. fold ks. rewrite F. apply in_or_app. right. left. reflexivity. }
    specialize (A k H). unfold f in Gk. lia.
Qed.

Lemma occurrences_NoDup tag tags :
  NoDup tags -> occurrences tag tags = if in_dec string_dec tag tags then 1 else 0.
Proof.
  intros ND. unfold occurrences.
  destruct (in_dec string_dec tag tags) as [I | N].
  - pose proof (proj1 (NoDup_count_occ string_dec tags) ND tag).
    pose proof (proj1 (count_occ_In string_dec tags tag) I). lia.
  - rewrite (proj1 (count_occ_not_In string_dec tags tag) N). reflexivity.
Qed.

Lemma creditedMinutes_NoDup tag activities :
  (forall a, In a activities -> NoDup (projectTags a)) ->
  creditedMinutes tag activities = carrierMinutes tag activities.
Proof.
  induction activities as [|a rest IH]; intros H; [reflexivity|].
  cbn [creditedMinutes carrierMinutes].
  rewrite IH by (intros b Hb; apply H; right; exact Hb).
  rewrite occurrences_NoDup by (apply H; left; reflexivity).
  destruct (in_dec string_dec tag (projectTags a)); lia.
Qed.

Lemma Map_get_projectMinutesOf activities tag :
  Map_get (projectMinutesOf activities) tag
  = if in_dec string_dec tag (allTags activities)
    then Some (creditedMinutes tag activities) else None.
Proof.
  rewrite projectMinutesOf_tabulate, Map_get_tabulate, entered_nil.
  destruct (in_dec string_dec tag (firstSeen (allTags activities))) as [I | N];
    destruct (in_dec string_dec tag (allTags activities)) as [I' | N']; try reflexivity.
  - exfalso. exact (N' (proj1 (In_firstSeen _ _) I)).
  - exfalso. exact (N (proj2 (In_firstSeen _ _) I')).
Qed.

(** C3, as the code has it.  The mapping built by the two loops gives every
    tag that occurs in the week the sum, over the activities, of the
    activity's full duration once for every time the activity lists the
    tag, and holds no other key.  When no activity lists a tag twice this is
    the sum of the durations of the activities that carry the tag, nothing
    being split between the tags of an activity.  For the two activities of
    60 minutes tagged A and 30 minutes tagged A and B the top project is A
    with 90 minutes and 100 percent. *)
Theorem projectMinutes_credits_every_listing (activities : list Activity) (tag : string) :
  Map_get (projectMinutesOf activities) tag
  = (if in_dec string_dec tag (allTags activities)
     then Some (creditedMinutes tag activities) else None)
  /\ ((forall a, In a activities -> NoDup (projectTags a)) ->
      creditedMinutes tag activities = carrierMinutes tag activities)
  /\ topProjectOf [sample 60 ["A"%string]; sample 30 ["A"%string; "B"%string]]
     = {| name := "A"; minutes := 90; percentage := of_Z 100 |}.
Proof.
  split; [apply Map_get_projectMinutesOf|]. split; [apply creditedMinutes_NoDup|].
  vm_compute. reflexivity.
Qed.

Lemma projectMinutes_credits_every_listing_witness :
  creditedMinutes "A" [sample 60 ["A"%string]; sample 30 ["A"%string; "B"%string]] = 90.
Proof.
  rewrite (proj1 (proj2 (projectMinutes_credits_every_listing
                           [sample 60 ["A"%string]; sample 30 ["A"%string; "B"%string]]
                           "A"%string))).
  - reflexivity.
  - intros a [<- | [<- | []]]; cbn [projectTags sample];
      repeat (constructor; [cbn [In]; intuition discriminate|]); constructor.
Defined.

(** C3 as stated fails on an activity that lists a tag twice: its duration
    is added once for each listing. *)
Lemma repeated_tag_is_credited_twice :
  ~ (forall activities tag,
       In tag (allTags activities) ->
       Map_get (projectMinutesOf activities) tag = Some (carrierMinutes tag activities)).
Proof.
  intros C. specialize (C [sample 30 ["A"%string; "A"%string]] "A"%string).
  vm_compute in C. specialize (C (or_introl eq_refl)). discriminate.
Qed.

(** C2 at a week whose only activity has the tag A and lasts zero minutes
    (start and end time equal).  The mapping is not empty and A carries the
    greatest total, 0; the loop keeps its starting pair, since no total
    exceeds 0, and the top project is named by the empty string. *)
Theorem topProjectOf_zero_minute_week :
  timeDifferenceInMinutes "09:00" "09:00" = Some 0
  /\ allTags [sample 0 ["A"%string]] = ["A"%string]
  /\ Map_get (projectMinutesOf [sample 0 ["A"%string]]) "A" = Some 0
  /\ topProjectOf [sample 0 ["A"%string]]
     = {| name := ""; minutes := 0; percentage := of_Z 0 |}.
Proof. repeat split; vm_compute; reflexivity. Qed.

End Ranker.

(** ** Dates *)

Section Dates.

Local Open Scope Z_scope.

(** [YearFromDay] is the year the day lies in. *)
Lemma YearFromDay_spec d :
  DayFromYear (YearFromDay d) <= d < DayFromYear (YearFromDay d + 1).
Proof.
  unfold YearFromDay.
  set (y := 1970 + d * 400 / 146097).
  assert (Hy : 146097 * (y - 1970) <= d * 400 < 146097 * (y - 1970) + 146097).
  { unfold y. pose proof (Z.div_mod (d * 400) 146097 ltac:(lia)).
    pose proof (Z.mod_pos_bound (d * 400) 146097 ltac:(lia)). lia. }
  clearbody y.
  destruct (Z.ltb_spec d (DayFromYear y)) as [L | L].
  - unfold DayFromYear in *. replace (y - 1 + 1) with y by lia. split; [|exact L].
    Z.div_mod_to_equations. lia.
  - destruct (Z.leb_spec (DayFromYear (y + 1)) d) as [G | G].
    + unfold DayFromYear in *. split; [exact G|]. Z.div_mod_to_equations. lia.
    + split; assumption.
Qed.

Lemma MonthFromTime_range t : 0 <= MonthFromTime t <= 11.
Proof.
  unfold MonthFromTime.
  repeat match goal with |- context [if ?b then _ else _] => destruct b end; lia.
Qed.

(** Setting the day of the month moves the date by whole days. *)
Lemma MakeDay_shift t k :
  MakeDay (YearFromTime t) (MonthFromTime t) (DateFromTime t + k) = Day t + k.
Proof.
  pose proof (MonthFromTime_range t) as R.
  unfold MakeDay. rewrite (Z.div_small (MonthFromTime t) 12) by lia.
  rewrite (Z.mod_small (MonthFromTime t) 12) by lia.
  rewrite Z.add_0_r. unfold DateFromTime, DayWithinYear, InLeapYear. lia.
Qed.

Lemma setDate_shift tza t k :
  setDate tza (Some t) (Some (DateFromTime (LocalTime tza t) + k))
  = TimeClip (t + k * msPerDay).
Proof.
  unfold setDate. rewrite MakeDay_shift. f_equal.
  unfold UTC, MakeDate, LocalTime, Day, TimeWithinDay.
  pose proof (Z.div_mod (t + tza) msPerDay ltac:(discriminate)). lia.
Qed.

End Dates.

Section DateStrings.

Local Open Scope Z_scope.
Local Open Scope string_scope.

Lemma contains_append c s t : contains c (s ++ t) = contains c s || contains c t.
Proof.
  induction s as [|a s IH]; simpl; [reflexivity|]. rewrite IH. apply orb_assoc.
Qed.

Lemma append_assoc (s t u : string) : (s ++ t) ++ u = s ++ t ++ u.
Proof. induction s as [|a s IH]; simpl; [reflexivity | rewrite IH; reflexivity]. Qed.

(** The first piece of a split is what precedes the first separator. *)
Lemma split_first c p r :
  contains c p = false -> hd "" (split c (p ++ String c r)) = p.
Proof.
  induction p as [|a p IH]; simpl.
  - rewrite Ascii.eqb_refl. reflexivity.
  - intros H. apply orb_false_iff in H. destruct H as [Ha Hp].
    rewrite Ha. specialize (IH Hp).
    destruct (split c (p ++ String c r)) as [|x xs]; simpl in *; congruence.
Qed.

Lemma uint_no_T d : contains "T" (NilEmpty.string_of_uint d) = false.
Proof. induction d; simpl; assumption || reflexivity. Qed.

Lemma toString_no_T n : contains "T" (toString n) = false.
Proof.
  unfold toString, NilZero.string_of_int, NilZero.string_of_uint.
  destruct (Z.to_int n) as [d | d]; destruct d; simpl; try reflexivity; apply uint_no_T.
Qed.

Lemma repeatChar_no_T k : contains "T" (repeatChar "0" k) = false.
Proof. induction k; simpl; [reflexivity | exact IHk]. Qed.

Lemma pad_no_T w n : contains "T" (pad w n) = false.
Proof.
  unfold pad, padStart. rewrite contains_append, repeatChar_no_T, toString_no_T. reflexivity.
Qed.

Lemma yearField_no_T y : contains "T" (yearField y) = false.
Proof.
  unfold yearField. destruct ((0 <=? y) && (y <=? 9999))%Z; [apply pad_no_T|].
  rewrite contains_append, pad_no_T. destruct (y <? 0)%Z; reflexivity.
Qed.

Lemma Day_of_day n : Day (n * msPerDay) = n.
Proof. unfold Day. apply Z.div_mul. discriminate. Qed.

Lemma YearFromTime_day t : YearFromTime (Day t * msPerDay) = YearFromTime t.
Proof. unfold YearFromTime. rewrite Day_of_day. reflexivity. Qed.

Lemma MonthFromTime_day t : MonthFromTime (Day t * msPerDay) = MonthFromTime t.
Proof.
  unfold MonthFromTime, DayWithinYear, InLeapYear. rewrite YearFromTime_day, Day_of_day.
  reflexivity.
Qed.

Lemma DateFromTime_day t : DateFromTime (Day t * msPerDay) = DateFromTime t.
Proof.
  unfold DateFromTime, DayWithinYear, InLeapYear.
  rewrite MonthFromTime_day, YearFromTime_day, Day_of_day. reflexivity.
Qed.

Lemma date_before_T y m d rest :
  contains "T" y = false -> contains "T" m = false -> contains "T" d = false ->
  hd "" (split "T" (y ++ "-" ++ m ++ "-" ++ d ++ "T" ++ rest)) = y ++ "-" ++ m ++ "-" ++ d.
Proof.
  intros Hy Hm Hd.
  replace (y ++ "-" ++ m ++ "-" ++ d ++ "T" ++ rest)
    with ((y ++ "-" ++ m ++ "-" ++ d) ++ String "T" rest)
    by (rewrite !append_assoc; reflexivity).
  apply split_first. rewrite !contains_append, Hy, Hm, Hd. reflexivity.
Qed.

(** The date part of the ISO string is the day the time value lies in. *)
Lemma isoDay_dayString t : isoDay (Some t) = Some (dayString (Day t)).
Proof.
  unfold isoDay, toISOString, dayString. cbn [option_map]. f_equal.
  rewrite YearFromTime_day, MonthFromTime_day, DateFromTime_day.
  apply date_before_T; [apply yearField_no_T | apply pad_no_T | apply pad_no_T].
Qed.

End DateStrings.

Section DateRanges.

Local Open Scope Z_scope.

Lemma TimeClip_Some t :
  - 8640000000000000 <= t <= 8640000000000000 -> TimeClip t = Some t.
Proof.
  intros H. unfold TimeClip. destruct (Z.leb_spec (Z.abs t) 8640000000000000); [reflexivity | lia].
Qed.

(** [today]: local midnight of the local day of [now]. *)
Lemma setHours0_now tza now :
  setHours0 tza (Some now) = TimeClip (Day (LocalTime tza now) * msPerDay - tza).
Proof. unfold setHours0, UTC, MakeDate. rewrite Z.add_0_r. reflexivity. Qed.

Lemma Day_local_midnight tza n : Day (LocalTime tza (n * msPerDay - tza)) = n.
Proof.
  unfold LocalTime. replace (n * msPerDay - tza + tza) with (n * msPerDay) by lia.
  apply Day_of_day.
Qed.

Lemma Day_utc_midnight tza n : Day (n * msPerDay - tza) = n + (- tza) / msPerDay.
Proof.
  unfold Day. replace (n * msPerDay - tza) with (n * msPerDay + - tza) by lia.
  apply Z.div_add_l. discriminate.
Qed.

(** The two dates of the ["lastWeek"] range, in any zone less than a day
    from UTC: the Sunday-to-Saturday week before the local week of [now],
    moved by the days between local midnight and its UTC date. *)
Lemma getDateRange_lastWeek now tza :
  - msPerDay < tza < msPerDay ->
  - 8640000000000000 + 15 * msPerDay <= now <= 8640000000000000 - msPerDay ->
  let D := Day (LocalTime tza now) in
  let dow := WeekDay (LocalTime tza now) in
  let shift := (- tza) / msPerDay in
  getDateRange now tza "lastWeek"
  = Some {| startDate := dayString (D - dow - 7 + shift);
            endDate := dayString (D - dow - 1 + shift) |}
  /\ WeekDay ((D - dow - 7) * msPerDay) = 0
  /\ WeekDay ((D - dow - 1) * msPerDay) = 6
  /\ (tza <= 0 -> shift = 0)
  /\ (0 < tza -> shift = -1).
Proof.
  intros Hz Hn. cbv zeta.
  set (D := Day (LocalTime tza now)). set (dow := WeekDay (LocalTime tza now)).
  assert (HD : D * msPerDay <= now + tza < D * msPerDay + msPerDay).
  { unfold D, Day, LocalTime.
    pose proof (Z.div_mod (now + tza) msPerDay ltac:(discriminate)).
    pose proof (Z.mod_pos_bound (now + tza) msPerDay ltac:(reflexivity)). lia. }
  assert (Hdow : 0 <= dow < 7 /\ dow = (D + 4) mod 7).
  { unfold dow, WeekDay. fold D. split; [apply Z.mod_pos_bound; lia | reflexivity]. }
  destruct Hdow as [Rdow Edow].
  unfold msPerDay in Hz, Hn, HD.
  set (T0 := D * msPerDay - tza).
  set (T1 := (D - dow - 1) * msPerDay - tza).
  set (T2 := (D - dow - 7) * msPerDay - tza).
  assert (E0 : setHours0 tza (Some now) = Some T0).
  { rewrite setHours0_now. fold D. apply TimeClip_Some. unfold T0, msPerDay. lia. }
  assert (G0 : getDay tza (Some T0) = Some dow).
  { unfold getDay, option_map, WeekDay, T0. rewrite Day_local_midnight. reflexivity. }
  assert (E1 : setDate tza (Some T0)
                 (subtract (subtract (getDate tza (Some T0)) (Some dow)) (Some 1)) = Some T1).
  { unfold getDate, option_map, subtract.
    replace (DateFromTime (LocalTime tza T0) - dow - 1)
      with (DateFromTime (LocalTime tza T0) + (- dow - 1)) by lia.
    rewrite setDate_shift.
    replace (T0 + (- dow - 1) * msPerDay) with T1 by (unfold T0, T1; lia).
    apply TimeClip_Some. unfold T1, msPerDay. lia. }
  assert (E2 : setDate tza (Some T1) (subtract (getDate tza (Some T1)) (Some 6)) = Some T2).
  { unfold getDate, option_map, subtract.
    replace (DateFromTime (LocalTime tza T1) - 6)
      with (DateFromTime (LocalTime tza T1) + - 6) by lia.
    rewrite setDate_shift.
    replace (T1 + - 6 * msPerDay) with T2 by (unfold T1, T2; lia).
    apply TimeClip_Some. unfold T2, msPerDay. lia. }
  split; [|split; [|split; [|split]]].
  - unfold getDateRange. rewrite E0, G0, E1, E2.
    rewrite !isoDay_dayString.
    change ("lastWeek" =? "today")%string with false.
    change ("lastWeek" =? "yesterday")%string with false.
    change ("lastWeek" =? "thisWeek")%string with false.
    change ("lastWeek" =? "lastWeek")%string with true.
    cbn [bind]. unfold T1, T2. rewrite !Day_utc_midnight. reflexivity.
  - unfold WeekDay. rewrite Day_of_day. rewrite Edow.
    Z.div_mod_to_equations. lia.
  - unfold WeekDay. rewrite Day_of_day. rewrite Edow.
    Z.div_mod_to_equations. lia.
  - intros H. apply Z.div_small. unfold msPerDay. lia.
  - intros H. unfold msPerDay. Z.div_mod_to_equations. lia.
Qed.

(** At or west of Greenwich the range is the Sunday-to-Saturday week before
    the local week of [now]. *)
Lemma getDateRange_lastWeek_west now tza :
  - msPerDay < tza <= 0 ->
  - 8640000000000000 + 15 * msPerDay <= now <= 8640000000000000 - msPerDay ->
  getDateRange now tza "lastWeek"
  = Some {| startDate := dayString (Day (LocalTime tza now) - WeekDay (LocalTime tza now) - 7);
            endDate := dayString (Day (LocalTime tza now) - WeekDay (LocalTime tza now) - 1) |}.
Proof.
  intros Hz Hn.
  destruct (getDateRange_lastWeek now tza) as [E [_ [_ [W _]]]];
    [unfold msPerDay in *; lia | exact Hn |].
  rewrite E, (W (proj2 Hz)), !Z.add_0_r. reflexivity.
Qed.

(** C1 on a host one hour east of Greenwich, on Wednesday 10 January 2024 at
    noon local time: the range runs from Saturday 30 December to Friday
    5 January, one day before the Sunday-to-Saturday week that ends on
    6 January. *)
Theorem getDateRange_lastWeek_east_of_Greenwich :
  WeekDay (LocalTime utcPlus1 wednesdayNoon) = 3
  /\ dayString (Day (LocalTime utcPlus1 wednesdayNoon)) = "2024-01-10"%string
  /\ getDateRange wednesdayNoon utcPlus1 "lastWeek"
     = Some {| startDate := "2023-12-30"; endDate := "2024-01-05" |}
  /\ dayString (Day (LocalTime utcPlus1 wednesdayNoon) - 3 - 1) = "2024-01-06"%string
  /\ dayString (Day (LocalTime utcPlus1 wednesdayNoon) - 3 - 1 - 6) = "2023-12-31"%string.
Proof. repeat split; vm_compute; reflexivity. Qed.

(** C8, as the code has it.  The resolver reads the clock and the zone of
    the host itself.  Its result is a function of the filter, of the local
    calendar day of the instant read and of the zone offset: two readings
    on the same local day give the same range, readings on different days
    or in different zones need not. *)
Theorem getDateRange_function_of_local_day :
  (forall filter now1 now2 tza,
      Day (LocalTime tza now1) = Day (LocalTime tza now2) ->
      getDateRange now1 tza filter = getDateRange now2 tza filter)
  /\ getDateRange wednesdayNoon 0 "today" <> getDateRange (wednesdayNoon + msPerDay) 0 "today"
  /\ getDateRange wednesdayNoon 0 "today" <> getDateRange wednesdayNoon utcPlus1 "today".
Proof.
  split; [|split].
  - intros filter now1 now2 tza H. unfold getDateRange.
    rewrite !setHours0_now, H. reflexivity.
  - vm_compute. discriminate.
  - vm_compute. discriminate.
Qed.

Lemma getDateRange_function_of_local_day_witness :
  getDateRange wednesdayNoon utcPlus1 "thisWeek"
  = getDateRange (wednesdayNoon + 3600000) utcPlus1 "thisWeek".
Proof.
  apply (proj1 getDateRange_function_of_local_day). vm_compute. reflexivity.
Defined.

(** C8 as stated fails.  The filter is the only argument of the resolver,
    and its result is not a function of the filter: it changes with the
    clock.  Nor is it a function of the filter and the instant read: it
    changes with the zone of the host. *)
Lemma getDateRange_depends_on_clock_and_zone :
  ~ (forall filter now1 now2 tza,
       getDateRange now1 tza filter = getDateRange now2 tza filter)
  /\ ~ (forall filter now tza1 tza2,
          getDateRange now tza1 filter = getDateRange now tza2 filter).
Proof.
  split; intros C.
  - specialize (C "today"%string wednesdayNoon (wednesdayNoon + msPerDay) 0).
    vm_compute in C. discriminate.
  - specialize (C "today"%string wednesdayNoon 0 utcPlus1).
    vm_compute in C. discriminate.
Qed.

End DateRanges.

(** ** Clock times: display, the current time, end times *)

(** Linear arithmetic with division and remainder by constants. *)
Ltac divlia := Z.div_mod_to_equations; lia.

Section ClockDisplay.

Local Open Scope Z_scope.
Local Open Scope string_scope.

Lemma digitChar_digit k :
  0 <= k <= 9 -> isDigit (digitChar k) = true /\ digitValue (digitChar k) = k.
Proof.
  intros H.
  assert (T : forallb (fun d => isDigit (digitChar d) && (digitValue (digitChar d) =? d)%Z)
                      (integersFrom 0 10) = true) by reflexivity.
  rewrite forallb_forall in T.
  assert (I : In k (integersFrom 0 10)).
  { unfold integersFrom. apply in_map_iff. exists (Z.to_nat k).
    split; [lia | apply in_seq; lia]. }
  specialize (T k I). apply andb_prop in T as [D V]. apply Z.eqb_eq in V. auto.
Qed.

Lemma two_digits n :
  0 <= n < 100 ->
  padStart 2 "0" (toString n) = String (digitChar (n / 10)) (String (digitChar (n mod 10)) "").
Proof.
  intros H.
  destruct (digitChar_digit (n / 10)) as [Da Va]; [divlia | ].
  destruct (digitChar_digit (n mod 10)) as [Db Vb]; [divlia | ].
  rewrite <- (pad_two_digits _ _ Da Db), Va, Vb.
  do 2 f_equal. divlia.
Qed.

Lemma clockTime_wellFormed m :
  0 <= m < 1440 ->
  wellFormedTime (clockTime m) = true
  /\ hoursOf (clockTime m) = m / 60 /\ minutesOf (clockTime m) = m mod 60.
Proof.
  intros H. unfold clockTime.
  rewrite (two_digits (m / 60)), (two_digits (m mod 60)) by divlia.
  destruct (digitChar_digit (m / 60 / 10)) as [D1 V1]; [divlia | ].
  destruct (digitChar_digit ((m / 60) mod 10)) as [D2 V2]; [divlia | ].
  destruct (digitChar_digit (m mod 60 / 10)) as [D3 V3]; [divlia | ].
  destruct (digitChar_digit ((m mod 60) mod 10)) as [D4 V4]; [divlia | ].
  cbn [append wellFormedTime hoursOf minutesOf].
  rewrite D1, D2, D3, D4, V1, V2, V3, V4. cbn [andb Ascii.eqb Bool.eqb].
  assert (E1 : 10 * (m / 60 / 10) + (m / 60) mod 10 = m / 60) by divlia.
  assert (E2 : 10 * (m mod 60 / 10) + (m mod 60) mod 10 = m mod 60) by divlia.
  rewrite E1, E2. repeat split.
  apply andb_true_intro; split; apply Z.ltb_lt; divlia.
Qed.

Lemma clockMinutes_clockTime m : 0 <= m < 1440 -> clockMinutes (clockTime m) = m.
Proof.
  intros H. destruct (clockTime_wellFormed m H) as (_ & Eh & Em).
  unfold clockMinutes. rewrite Eh, Em. divlia.
Qed.

Lemma calculateEndTime_clockTime startTime durationMinutes :
  wellFormedTime startTime = true -> 0 <= durationMinutes ->
  calculateEndTime startTime durationMinutes
  = Some (clockTime ((clockMinutes startTime + durationMinutes) mod 1440)).
Proof.
  intros W Hd. destruct (wellFormedTime_inv startTime W) as (Sp & Rh & Rm & _).
  unfold calculateEndTime. rewrite Sp. unfold clockTime, clockMinutes.
  set (T := hoursOf startTime * 60 + minutesOf startTime + durationMinutes).
  assert (HT : 0 <= T) by (unfold T; lia).
  rewrite !Z.rem_mod_nonneg by divlia.
  replace (T mod 1440 / 60) with ((T / 60) mod 24) by divlia.
  replace ((T mod 1440) mod 60) with (T mod 60) by divlia.
  reflexivity.
Qed.

Lemma toString_nonneg_digits n : 0 <= n -> Number_ (toString n) = Some n.
Proof.
  intros H. destruct n as [ | p | p]; [reflexivity | | lia].
  unfold toString, Number_. cbn [Z.to_int NilZero.string_of_int].
  assert (E : NilZero.string_of_uint (Pos.to_uint p) = NilEmpty.string_of_uint (Pos.to_uint p)).
  { pose proof (DecimalPos.Unsigned.to_uint_nonnil p) as N.
    destruct (Pos.to_uint p); [contradiction | reflexivity ..]. }
  rewrite E, NilEmpty.usu. cbn [option_map]. unfold Z.of_uint.
  rewrite DecimalPos.Unsigned.of_to. reflexivity.
Qed.

Lemma toString_inj a b : toString a = toString b -> a = b.
Proof.
  intros E. apply DecimalZ.to_int_inj.
  assert (N : forall z, Z.to_int z <> Decimal.Pos Decimal.Nil /\ Z.to_int z <> Decimal.Neg Decimal.Nil).
  { intros [ | p | p]; cbn; split; try discriminate;
      intros C; injection C as C; exact (DecimalPos.Unsigned.to_uint_nonnil p C). }
  unfold toString in E.
  pose proof (NilZero.isi (Z.to_int a) (proj1 (N a)) (proj2 (N a))) as Ia.
  pose proof (NilZero.isi (Z.to_int b) (proj1 (N b)) (proj2 (N b))) as Ib.
  rewrite E in Ia. congruence.
Qed.

Lemma append_inj_length (a b x y : string) :
  String.length a = String.length b -> a ++ x = b ++ y -> a = b /\ x = y.
Proof.
  revert b; induction a as [ | c a IH]; intros [ | c' b] L E; try discriminate.
  - split; [reflexivity | exact E].
  - cbn in L, E. injection L as L. injection E as Ec E.
    destruct (IH b L E) as [-> ->]. subst. split; reflexivity.
Qed.

Lemma append_inj_suffix (a b x y : string) :
  String.length x = String.length y -> a ++ x = b ++ y -> a = b /\ x = y.
Proof.
  intros L E. apply append_inj_length; [ | exact E].
  apply (f_equal String.length) in E. rewrite !length_append in E. lia.
Qed.

(** The hour shown by the twelve-hour clock. *)
Lemma displayHours_range h :
  0 <= h < 24 ->
  let displayHours := if (Z.rem h 12 =? 0)%Z then 12 else Z.rem h 12 in
  1 <= displayHours <= 12 /\ displayHours mod 12 = h mod 12.
Proof.
  intros H. cbn zeta. rewrite Z.rem_mod_nonneg by divlia.
  destruct (Z.eqb_spec (h mod 12) 0) as [E | E].
  - rewrite E. split; [lia | reflexivity].
  - split; [divlia | ]. rewrite Z.mod_mod by divlia. reflexivity.
Qed.

Lemma formatTime_wellFormed time :
  wellFormedTime time = true ->
  Utils.formatTime time
  = Some (toString (if (Z.rem (hoursOf time) 12 =? 0)%Z then 12 else Z.rem (hoursOf time) 12)
          ++ ":" ++ substring 3 2 time ++ " "
          ++ (if (hoursOf time <? 12)%Z then "AM" else "PM")).
Proof.
  intros W. destruct (wellFormedTime_inv time W) as (Sp & Rh & Rm & E).
  unfold Utils.formatTime. rewrite Sp. do 3 f_equal.
  - f_equal.
    + destruct time as [ | a [ | b [ | c [ | d [ | e [ | ? ?]]]]]]; try discriminate W.
      cbn in W. apply andb_prop in W as [W _]. apply andb_prop in W as [W _].
      apply andb_prop in W as [W De]. apply andb_prop in W as [_ Dd].
      cbn [minutesOf]. rewrite (pad_two_digits _ _ Dd De). reflexivity.
    + f_equal. rewrite Z.geb_leb.
      destruct (Z.leb_spec 12 (hoursOf time)), (Z.ltb_spec (hoursOf time) 12);
        try reflexivity; lia.
Qed.

(** X1. [formatTime] shows a zero-padded 24-hour time on the twelve-hour
    clock: the hour shown is between 1 and 12 and is the hour modulo 12,
    the two minute digits are kept, and the period is AM exactly for the
    hours before noon. *)
Theorem formatTime_twelve_hour_clock (time : string) :
  wellFormedTime time = true ->
  exists displayHours,
    Utils.formatTime time
    = Some (toString displayHours ++ ":" ++ substring 3 2 time ++ " "
            ++ (if (hoursOf time <? 12)%Z then "AM" else "PM"))
    /\ 1 <= displayHours <= 12
    /\ displayHours mod 12 = hoursOf time mod 12.
Proof.
  intros W. destruct (wellFormedTime_inv time W) as (_ & Rh & _).
  eexists. split; [apply formatTime_wellFormed; exact W | ].
  apply displayHours_range; exact Rh.
Qed.

Lemma formatTime_twelve_hour_clock_witness :
  exists displayHours,
    Utils.formatTime "13:05" = Some (toString displayHours ++ ":05 PM")
    /\ 1 <= displayHours <= 12 /\ displayHours mod 12 = 1.
Proof.
  destruct (formatTime_twelve_hour_clock "13:05" eq_refl) as (h & E & R & M).
  exists h. repeat split; try lia; [exact E | exact M].
Defined.

Lemma substring_3_2 time :
  wellFormedTime time = true -> String.length (substring 3 2 time) = 2%nat.
Proof.
  intros W.
  destruct time as [ | a [ | b [ | c [ | d [ | e [ | ? ?]]]]]]; try discriminate W.
  reflexivity.
Qed.

Lemma wellFormedTime_parts time :
  wellFormedTime time = true ->
  time = padStart 2 "0" (toString (hoursOf time)) ++ ":" ++ substring 3 2 time.
Proof.
  intros W. destruct (wellFormedTime_inv time W) as (_ & Rh & _ & E).
  destruct time as [ | a [ | b [ | c [ | d [ | e [ | ? ?]]]]]]; try discriminate W.
  cbn in W. apply andb_prop in W as [W _]. apply andb_prop in W as [W _].
  apply andb_prop in W as [W De]. apply andb_prop in W as [W Dd].
  apply andb_prop in W as [W Dc]. apply andb_prop in W as [Da Db].
  cbn [hoursOf]. rewrite (pad_two_digits _ _ Da Db).
  apply Ascii.eqb_eq in Dc. subst c. reflexivity.
Qed.

Lemma display_inj (a1 s1 p1 a2 s2 p2 : string) :
  String.length s1 = String.length s2 -> String.length p1 = String.length p2 ->
  a1 ++ ":" ++ s1 ++ " " ++ p1 = a2 ++ ":" ++ s2 ++ " " ++ p2 ->
  a1 = a2 /\ s1 = s2 /\ p1 = p2.
Proof.
  intros Ls Lp E.
  apply append_inj_suffix in E.
  - destruct E as [Ea E]. injection E as E.
    apply append_inj_length in E; [ | exact Ls].
    destruct E as [Es E]. injection E as E. auto.
  - cbn. rewrite !length_append. cbn. lia.
Qed.

(** X2. Two different times of day are never shown alike: on zero-padded
    24-hour times [formatTime] is injective. *)
Theorem formatTime_injective (time1 time2 : string) :
  wellFormedTime time1 = true -> wellFormedTime time2 = true ->
  Utils.formatTime time1 = Utils.formatTime time2 -> time1 = time2.
Proof.
  intros W1 W2 E.
  rewrite (formatTime_wellFormed _ W1), (formatTime_wellFormed _ W2) in E.
  injection E as E.
  destruct (wellFormedTime_inv _ W1) as (_ & R1 & _).
  destruct (wellFormedTime_inv _ W2) as (_ & R2 & _).
  apply display_inj in E;
    [ destruct E as (Eh' & Em' & Ep)
    | rewrite !substring_3_2 by assumption; reflexivity
    | destruct (hoursOf time1 <? 12)%Z, (hoursOf time2 <? 12)%Z; reflexivity ].
  apply toString_inj in Eh'.
  assert (H : hoursOf time1 = hoursOf time2).
  { rewrite !Z.rem_mod_nonneg in Eh' by lia. revert Ep Eh'.
    destruct (Z.ltb_spec (hoursOf time1) 12), (Z.ltb_spec (hoursOf time2) 12);
      intros Ep; try discriminate Ep;
      destruct (Z.eqb_spec (hoursOf time1 mod 12) 0), (Z.eqb_spec (hoursOf time2 mod 12) 0);
      intros Eh'; divlia. }
  rewrite (wellFormedTime_parts _ W1), (wellFormedTime_parts _ W2), H, Em'. reflexivity.
Qed.

Lemma formatTime_injective_witness :
  wellFormedTime "00:30" = true
  /\ Utils.formatTime "00:30" = Some "12:30 AM"
  /\ "00:30" = "00:30".
Proof.
  split; [reflexivity | split; [reflexivity | ]].
  exact (formatTime_injective "00:30" "00:30" eq_refl eq_refl eq_refl).
Defined.

(** X3. [getCurrentTime] always gives a zero-padded 24-hour time, the
    minute of the day that the local clock of the host shows. *)
Theorem getCurrentTime_is_local_clock_time (now tza : Z) :
  exists time,
    getCurrentTime now tza = Some time
    /\ wellFormedTime time = true
    /\ clockMinutes time = (LocalTime tza now / 60000) mod 1440.
Proof.
  set (m := (LocalTime tza now / 60000) mod 1440).
  assert (R : 0 <= m < 1440) by (unfold m; divlia).
  exists (clockTime m).
  destruct (clockTime_wellFormed m R) as (W & _).
  split; [ | split; [exact W | apply clockMinutes_clockTime; exact R]].
  unfold getCurrentTime, getHours, getMinutes, HourFromTime, MinFromTime, clockTime.
  cbn [option_map].
  replace (LocalTime tza now / 3600000 mod 24) with (m / 60) by (unfold m; divlia).
  replace (LocalTime tza now / 60000 mod 60) with (m mod 60) by (unfold m; divlia).
  reflexivity.
Qed.







Lemma toString_negative n : n < 0 -> exists rest, padStart 2 "0" (toString n) = String "-" rest.
Proof.
  intros H. destruct n as [ | p | p]; try lia.
  unfold toString, padStart. cbn [Z.to_int NilZero.string_of_int].
  pose proof (DecimalPos.Unsigned.to_uint_nonnil p) as N.
  destruct (Pos.to_uint p) as [ | u | u | u | u | u | u | u | u | u | u];
    [contradiction | ..]; cbn; eexists; reflexivity.
Qed.

Lemma wellFormedTime_no_sign_first rest : wellFormedTime (String "-" rest) = false.
Proof.
  destruct rest as [ | b [ | c [ | d [ | e [ | ? ?]]]]]; reflexivity.
Qed.

Lemma wellFormedTime_no_sign_fourth a b c rest :
  wellFormedTime (String a (String b (String c (String "-" rest)))) = false.
Proof.
  destruct rest as [ | e [ | ? ?]]; try reflexivity.
  cbn. destruct (isDigit a), (isDigit b), (Ascii.eqb c ":"); reflexivity.
Qed.



End ClockDisplay.

(** ** Days and their strings *)

Section DayStrings.

Local Open Scope Z_scope.
Local Open Scope string_scope.

Lemma Number_leading_zero s : Number_ (String "0" s) = Number_ s.
Proof.
  unfold Number_. cbn [NilEmpty.uint_of_string].
  destruct (NilEmpty.uint_of_string s); reflexivity.
Qed.

Lemma Number_pad w n : 0 <= n -> Number_ (pad w n) = Some n.
Proof.
  intros H. unfold pad, padStart.
  induction (w - String.length (toString n))%nat as [ | k IH].
  - apply toString_nonneg_digits; exact H.
  - cbn [repeatChar append]. rewrite Number_leading_zero. exact IH.
Qed.

Lemma pad_inj w a b : 0 <= a -> 0 <= b -> pad w a = pad w b -> a = b.
Proof.
  intros Ha Hb E. apply (f_equal Number_) in E.
  rewrite !Number_pad in E by assumption. congruence.
Qed.

Lemma pad_2_length n : 0 <= n < 100 -> String.length (pad 2 n) = 2%nat.
Proof. intros H. unfold pad. rewrite two_digits by exact H. reflexivity. Qed.

Lemma Number_signed (negative : bool) s :
  Number_ ((if negative then "-" else "+") ++ s) = None.
Proof.
  unfold Number_. destruct negative; cbn [append NilEmpty.uint_of_string];
    destruct (NilEmpty.uint_of_string s); reflexivity.
Qed.

Lemma yearField_inj y1 y2 : yearField y1 = yearField y2 -> y1 = y2.
Proof.
  unfold yearField.
  destruct ((0 <=? y1)%Z && (y1 <=? 9999)%Z) eqn:R1,
           ((0 <=? y2)%Z && (y2 <=? 9999)%Z) eqn:R2; intros E.
  - apply andb_prop in R1 as [A1 B1]. apply andb_prop in R2 as [A2 B2].
    apply pad_inj in E; [exact E | lia | lia].
  - apply andb_prop in R1 as [A1 B1].
    apply (f_equal Number_) in E. rewrite Number_pad, Number_signed in E by lia.
    discriminate E.
  - apply andb_prop in R2 as [A2 B2].
    apply (f_equal Number_) in E. rewrite Number_pad, Number_signed in E by lia.
    discriminate E.
  - apply andb_false_iff in R1. apply andb_false_iff in R2.
    revert E. destruct (Z.ltb_spec y1 0), (Z.ltb_spec y2 0); intros E;
      try discriminate E; injection E as E; apply pad_inj in E; lia.
Qed.

Lemma DayFromYear_succ y : DayFromYear (y + 1) = DayFromYear y + DaysInYear y.
Proof.
  unfold DayFromYear, DaysInYear.
  destruct (Z.eqb_spec (y mod 4) 0), (Z.eqb_spec (y mod 100) 0), (Z.eqb_spec (y mod 400) 0);
    cbn [andb orb negb]; divlia.
Qed.

Lemma DayFromYear_mono a b : a <= b -> DayFromYear a <= DayFromYear b.
Proof. intros H. unfold DayFromYear. divlia. Qed.

Lemma YearFromDay_unique d y :
  DayFromYear y <= d < DayFromYear (y + 1) -> YearFromDay d = y.
Proof.
  intros H. pose proof (YearFromDay_spec d) as S.
  destruct (Z.lt_trichotomy (YearFromDay d) y) as [L | [E | G]]; [ | exact E | ].
  - pose proof (DayFromYear_mono (YearFromDay d + 1) y ltac:(lia)). lia.
  - pose proof (DayFromYear_mono (y + 1) (YearFromDay d) ltac:(lia)). lia.
Qed.

Lemma DayWithinYear_range t :
  0 <= DayWithinYear t < 365 + InLeapYear t /\ 0 <= InLeapYear t <= 1.
Proof.
  unfold DayWithinYear, InLeapYear, YearFromTime.
  pose proof (YearFromDay_spec (Day t)) as S. rewrite DayFromYear_succ in S.
  unfold DaysInYear in *.
  destruct (_ && _); cbn; lia.
Qed.

Lemma DateFromTime_range t : 1 <= DateFromTime t <= 31.
Proof.
  pose proof (DayWithinYear_range t) as [R L].
  unfold DateFromTime, MonthFromTime.
  repeat match goal with
         | |- context [if ?b then _ else _] =>
             let H := fresh in destruct (Z.ltb_spec (DayWithinYear t)
               ltac:(match b with (_ <? ?x)%Z => exact x end)) as [H | H]
         end; cbn [monthStart]; lia.
Qed.

(** The day number is determined by the string of the day. *)
Lemma dayString_inj n1 n2 : dayString n1 = dayString n2 -> n1 = n2.
Proof.
  intros E. unfold dayString in E.
  set (t1 := n1 * msPerDay) in *. set (t2 := n2 * msPerDay) in *.
  pose proof (MonthFromTime_range t1) as M1. pose proof (MonthFromTime_range t2) as M2.
  pose proof (DateFromTime_range t1) as D1. pose proof (DateFromTime_range t2) as D2.
  apply append_inj_suffix in E;
    [ | cbn [append String.length]; rewrite !length_append; cbn [String.length];
        rewrite !pad_2_length by lia; reflexivity].
  destruct E as [Ey E]. apply yearField_inj in Ey.
  injection E as E.
  apply append_inj_length in E; [ | rewrite !pad_2_length by lia; reflexivity].
  destruct E as [Em E]. apply pad_inj in Em; [ | lia | lia].
  injection E as E. apply pad_inj in E; [ | lia | lia].
  rewrite <- (Day_of_day n1), <- (Day_of_day n2). fold t1 t2.
  rewrite <- (Z.add_0_r (Day t1)), <- (Z.add_0_r (Day t2)), <- !MakeDay_shift.
  rewrite Ey, E. replace (MonthFromTime t1) with (MonthFromTime t2) by lia. reflexivity.
Qed.

Lemma Day_back t k : Day (t - k * msPerDay) = Day t - k.
Proof.
  unfold Day. replace (t - k * msPerDay) with (t + (- k) * msPerDay) by lia.
  rewrite Z.div_add by discriminate. lia.
Qed.

Lemma setDate_back tza t k :
  - 8640000000000000 <= t - k * msPerDay <= 8640000000000000 ->
  setDate tza (Some t) (subtract (getDate tza (Some t)) (Some k)) = Some (t - k * msPerDay).
Proof.
  intros H. unfold getDate, option_map, subtract.
  replace (DateFromTime (LocalTime tza t) - k) with (DateFromTime (LocalTime tza t) + - k) by lia.
  rewrite setDate_shift.
  replace (t + - k * msPerDay) with (t - k * msPerDay) by lia.
  apply TimeClip_Some; exact H.
Qed.

(** The year of a clock that is not before 1970 is not taken for a year
    of the twentieth century. *)
Lemma YearFromTime_recent t : - msPerDay <= t -> 1969 <= YearFromTime t.
Proof.
  intros H. unfold YearFromTime.
  assert (Hd : -1 <= Day t) by (unfold Day, msPerDay in *; divlia).
  pose proof (YearFromDay_spec (Day t)) as S.
  destruct (Z.le_gt_cases 1969 (YearFromDay (Day t))) as [G | L]; [exact G | ].
  pose proof (DayFromYear_mono (YearFromDay (Day t) + 1) 1969 ltac:(lia)) as Mn.
  change (DayFromYear 1969) with (-365) in Mn. lia.
Qed.

(** The first day of the month of [t]. *)
Lemma first_of_month t :
  let n := Day t - (DateFromTime t - 1) in
  YearFromTime (n * msPerDay) = YearFromTime t
  /\ MonthFromTime (n * msPerDay) = MonthFromTime t
  /\ DateFromTime (n * msPerDay) = 1.
Proof.
  cbn zeta. set (n := Day t - (DateFromTime t - 1)).
  pose proof (DayWithinYear_range t) as [R L].
  pose proof (DateFromTime_range t) as Rd.
  pose proof (MonthFromTime_range t) as Rm.
  assert (C : MonthFromTime t = 0 \/ MonthFromTime t = 1 \/ MonthFromTime t = 2
              \/ MonthFromTime t = 3 \/ MonthFromTime t = 4 \/ MonthFromTime t = 5
              \/ MonthFromTime t = 6 \/ MonthFromTime t = 7 \/ MonthFromTime t = 8
              \/ MonthFromTime t = 9 \/ MonthFromTime t = 10 \/ MonthFromTime t = 11) by lia.
  assert (En : n = DayFromYear (YearFromTime t) + monthStart (InLeapYear t) (MonthFromTime t)).
  { unfold n, DateFromTime, DayWithinYear. lia. }
  assert (Sm : 0 <= monthStart (InLeapYear t) (MonthFromTime t) <= DayWithinYear t).
  { unfold DateFromTime in Rd. split; [ | lia].
    repeat (destruct C as [C | C]; [rewrite C; cbn [monthStart]; lia | ]).
    rewrite C; cbn [monthStart]; lia. }
  assert (Ey : YearFromTime (n * msPerDay) = YearFromTime t).
  { unfold YearFromTime at 1. rewrite Day_of_day. apply YearFromDay_unique.
    pose proof (YearFromDay_spec (Day t)) as S. fold (YearFromTime t) in S.
    unfold DayWithinYear in *. lia. }
  assert (Ew : DayWithinYear (n * msPerDay) = monthStart (InLeapYear t) (MonthFromTime t)).
  { unfold DayWithinYear. rewrite Ey, Day_of_day. lia. }
  assert (El : InLeapYear (n * msPerDay) = InLeapYear t).
  { unfold InLeapYear. rewrite Ey. reflexivity. }
  assert (Em : MonthFromTime (n * msPerDay) = MonthFromTime t).
  { unfold MonthFromTime at 1. rewrite Ew, El.
    repeat (destruct C as [C | C];
            [rewrite C; cbn [monthStart];
             repeat match goal with
                    | |- context [(?a <? ?b)%Z] => destruct (Z.ltb_spec a b); try lia
                    end | ]).
    rewrite C; cbn [monthStart];
      repeat match goal with
             | |- context [(?a <? ?b)%Z] => destruct (Z.ltb_spec a b); try lia
             end. }
  split; [exact Ey | split; [exact Em | ]].
  unfold DateFromTime. rewrite Ew, El, Em. lia.
Qed.

End DayStrings.

(** ** The ranges of [getDateRange], and the labels of [formatDate] *)

(** Decide the comparisons of a filter keyword with the keywords of the code. *)
Ltac keyword :=
  repeat match goal with
         | |- context [String.eqb ?a ?b] =>
             let v := eval vm_compute in (String.eqb a b) in
             change (String.eqb a b) with v
         end;
  cbn [bind].

Section FilterRanges.

Local Open Scope Z_scope.

Section Host.

Variables (now tza : Z).
Hypothesis clock : ordinaryClock now tza.

Let D := localDay now tza.
Let T0 := D * msPerDay - tza.

Lemma localDay_bounds : D * msPerDay <= now + tza < D * msPerDay + msPerDay.
Proof.
  unfold D, localDay, Day, LocalTime.
  pose proof (Z.div_mod (now + tza) msPerDay ltac:(discriminate)).
  pose proof (Z.mod_pos_bound (now + tza) msPerDay ltac:(reflexivity)). lia.
Qed.

Lemma today_midnight : setHours0 tza (Some now) = Some T0.
Proof.
  pose proof localDay_bounds as B. destruct clock as [Hz Hn].
  rewrite setHours0_now. apply TimeClip_Some. unfold T0. fold D.
  unfold msPerDay in *. lia.
Qed.

Lemma midnight_back k :
  0 <= k <= 37 ->
  setDate tza (Some T0) (subtract (getDate tza (Some T0)) (Some k))
  = Some (T0 - k * msPerDay).
Proof.
  intros Hk. pose proof localDay_bounds as B. destruct clock as [Hz Hn].
  apply setDate_back. unfold T0. unfold msPerDay in *. lia.
Qed.

Lemma Day_midnight_back k : Day (T0 - k * msPerDay) = midnightDay now tza - k.
Proof. rewrite Day_back. reflexivity. Qed.

Lemma midnightDay_shift : midnightDay now tza = D + (- tza) / msPerDay.
Proof. unfold midnightDay. apply Day_utc_midnight. Qed.

Lemma midnightDay_west : tza <= 0 -> midnightDay now tza = D.
Proof.
  intros H. destruct clock as [Hz _]. rewrite midnightDay_shift.
  rewrite Z.div_small by (unfold msPerDay in *; lia). lia.
Qed.

Lemma midnightDay_east : 0 < tza -> midnightDay now tza = D - 1.
Proof.
  intros H. destruct clock as [Hz _]. rewrite midnightDay_shift.
  unfold msPerDay in *. divlia.
Qed.

Lemma localWeekDay_range : 0 <= localWeekDay now tza <= 6.
Proof.
  unfold localWeekDay, WeekDay.
  pose proof (Z.mod_pos_bound (Day (LocalTime tza now) + 4) 7 ltac:(lia)). lia.
Qed.

Lemma getDay_midnight : getDay tza (Some T0) = Some (localWeekDay now tza).
Proof.
  unfold getDay, option_map, WeekDay, T0. rewrite Day_local_midnight. reflexivity.
Qed.

Lemma getDateRange_today :
  getDateRange now tza "today"
  = Some {| startDate := dayString (midnightDay now tza);
            endDate := dayString (midnightDay now tza) |}.
Proof.
  unfold getDateRange. rewrite today_midnight, isoDay_dayString. reflexivity.
Qed.

Lemma getDateRange_yesterday :
  getDateRange now tza "yesterday"
  = Some {| startDate := dayString (midnightDay now tza - 1);
            endDate := dayString (midnightDay now tza - 1) |}.
Proof.
  unfold getDateRange. rewrite today_midnight, isoDay_dayString. keyword.
  rewrite (midnight_back 1) by lia. rewrite isoDay_dayString, Day_midnight_back.
  reflexivity.
Qed.

Lemma getDateRange_thisWeek :
  getDateRange now tza "thisWeek"
  = Some {| startDate := dayString (midnightDay now tza - localWeekDay now tza);
            endDate := dayString (midnightDay now tza) |}.
Proof.
  pose proof localWeekDay_range as R.
  unfold getDateRange. rewrite today_midnight, isoDay_dayString, getDay_midnight. keyword.
  rewrite midnight_back by lia. rewrite isoDay_dayString, Day_midnight_back.
  reflexivity.
Qed.

Lemma getDateRange_lastWeek_days :
  getDateRange now tza "lastWeek"
  = Some {| startDate := dayString (midnightDay now tza - localWeekDay now tza - 7);
            endDate := dayString (midnightDay now tza - localWeekDay now tza - 1) |}.
Proof.
  destruct clock as [Hz Hn].
  destruct (getDateRange_lastWeek now tza Hz) as (E & _).
  { unfold msPerDay in *. lia. }
  rewrite E, midnightDay_shift. unfold localWeekDay, D, localDay.
  generalize ((- tza) / msPerDay); intros s.
  f_equal. f_equal; f_equal; lia.
Qed.

Lemma getDateRange_thisMonth :
  getDateRange now tza "thisMonth"
  = Some {| startDate := dayString (midnightDay now tza - (localDate now tza - 1));
            endDate := dayString (midnightDay now tza) |}.
Proof.
  pose proof localDay_bounds as B. destruct clock as [Hz Hn].
  unfold getDateRange. rewrite today_midnight, isoDay_dayString.
  keyword.
  unfold getFullYear, getMonth, option_map, newDateYM1.
  assert (EL : LocalTime tza T0 = Day (LocalTime tza now) * msPerDay).
  { unfold LocalTime, T0, D, localDay. unfold LocalTime. lia. }
  rewrite EL, YearFromTime_day, MonthFromTime_day.
  pose proof (YearFromTime_recent (LocalTime tza now)) as Y.
  assert (Hl : - msPerDay <= LocalTime tza now) by (unfold LocalTime, msPerDay in *; lia).
  specialize (Y Hl).
  destruct (Z.leb_spec (YearFromTime (LocalTime tza now)) 99) as [C | _]; [lia | ].
  rewrite andb_false_r.
  pose proof (DateFromTime_range (LocalTime tza now)) as Rd.
  replace 1 with (DateFromTime (LocalTime tza now) + (1 - DateFromTime (LocalTime tza now)))
    at 1 by lia.
  rewrite MakeDay_shift. unfold UTC, MakeDate. rewrite Z.add_0_r.
  fold (localDay now tza). fold D.
  rewrite TimeClip_Some by (unfold msPerDay in *; lia).
  cbn [bind]. rewrite isoDay_dayString. cbn [bind].
  unfold T0. rewrite !Day_utc_midnight, midnightDay_shift.
  unfold localDate. generalize ((- tza) / msPerDay); intros s.
  f_equal. f_equal. f_equal. lia.
Qed.

Lemma getDateRange_other filter :
  filter <> "today"%string -> filter <> "yesterday"%string -> filter <> "thisWeek"%string ->
  filter <> "lastWeek"%string -> filter <> "thisMonth"%string ->
  getDateRange now tza filter
  = Some {| startDate := dayString (midnightDay now tza - 30);
            endDate := dayString (midnightDay now tza) |}.
Proof.
  intros N1 N2 N3 N4 N5.
  unfold getDateRange. rewrite today_midnight, isoDay_dayString.
  apply String.eqb_neq in N1, N2, N3, N4, N5. rewrite N1, N2, N3, N4, N5.
  cbn [bind]. rewrite (midnight_back 30) by lia.
  rewrite isoDay_dayString, Day_midnight_back. reflexivity.
Qed.

End Host.

Lemma ordinaryClock_sample : ordinaryClock wednesdayNoon utcPlus1.
Proof. unfold ordinaryClock, wednesdayNoon, utcPlus1, msPerDay. lia. Qed.











(** X13. [getTodayDate] names the UTC day of the clock: it never throws
    on a clock reading, and two readings give the same string exactly
    when they lie in the same UTC day. *)
Theorem getTodayDate_names_the_utc_day (now1 now2 : Z) :
  getTodayDate now1 = Some (dayString (Day now1))
  /\ (getTodayDate now1 = getTodayDate now2 <-> Day now1 = Day now2).
Proof.
  unfold getTodayDate. rewrite !isoDay_dayString.
  split; [reflexivity | split].
  - intros E. injection E as E. apply dayString_inj; exact E.
  - intros ->. reflexivity.
Qed.

Lemma midnightDay_near now tza :
  ordinaryClock now tza -> Day now - 1 <= midnightDay now tza <= Day now.
Proof.
  intros clock. pose proof (localDay_bounds now tza) as B.
  destruct (Z.le_gt_cases tza 0) as [W | E].
  - rewrite (midnightDay_west now tza clock W).
    destruct clock as [Hz Hn]. unfold localDay, Day, LocalTime, msPerDay in *. divlia.
  - rewrite (midnightDay_east now tza clock E).
    destruct clock as [Hz Hn]. unfold localDay, Day, LocalTime, msPerDay in *. divlia.
Qed.



Lemma formatDate_days now tza toLocaleDateString dateStr :
  ordinaryClock now tza ->
  formatDate now tza toLocaleDateString dateStr
  = Some (if String.eqb dateStr (dayString (midnightDay now tza)) then "Today"%string
          else if String.eqb dateStr (dayString (midnightDay now tza - 1)) then "Yesterday"%string
          else toLocaleDateString dateStr).
Proof.
  intros clock. unfold formatDate.
  rewrite (today_midnight now tza clock), isoDay_dayString.
  rewrite (midnight_back now tza clock 1) by lia.
  rewrite isoDay_dayString, Day_midnight_back. cbn [bind].
  fold (midnightDay now tza).
  destruct (String.eqb dateStr (dayString (midnightDay now tza))); [reflexivity | ].
  cbn [bind].
  destruct (String.eqb dateStr (dayString (midnightDay now tza - 1))); reflexivity.
Qed.



End FilterRanges.

(** ** The query of the activity list and the dates of the summary *)

Section Requests.

Local Open Scope Z_scope.

Lemma clock_back now tza k :
  ordinaryClock now tza -> 0 <= k <= 37 ->
  setDate tza (Some now) (subtract (getDate tza (Some now)) (Some k))
  = Some (now - k * msPerDay).
Proof.
  intros [Hz Hn] Hk. apply setDate_back. unfold msPerDay in *. lia.
Qed.

Lemma dateParams_today now tza :
  ActivityList.dateParams now tza "today" = Some [("date", dayString (Day now))]%string.
Proof. unfold ActivityList.dateParams. keyword. rewrite isoDay_dayString. reflexivity. Qed.

Lemma dateParams_yesterday now tza :
  ordinaryClock now tza ->
  ActivityList.dateParams now tza "yesterday" = Some [("date", dayString (Day now - 1))]%string.
Proof.
  intros clock. unfold ActivityList.dateParams. keyword.
  rewrite (clock_back now tza 1 clock) by lia.
  rewrite isoDay_dayString, Day_back. reflexivity.
Qed.

Lemma dateParams_thisWeek now tza :
  ordinaryClock now tza ->
  ActivityList.dateParams now tza "thisWeek"
  = Some [("startDate", dayString (Day now - localWeekDay now tza));
          ("endDate", dayString (Day now))]%string.
Proof.
  intros clock. pose proof (localWeekDay_range now tza) as R.
  unfold ActivityList.dateParams. keyword.
  change (getDay tza (Some now)) with (Some (localWeekDay now tza)).
  rewrite (clock_back now tza _ clock) by lia.
  rewrite !isoDay_dayString, Day_back. reflexivity.
Qed.

Lemma dateParams_lastWeek now tza :
  ordinaryClock now tza ->
  ActivityList.dateParams now tza "lastWeek"
  = Some [("startDate", dayString (Day now - localWeekDay now tza - 7));
          ("endDate", dayString (Day now - localWeekDay now tza - 1))]%string.
Proof.
  intros clock. pose proof (localWeekDay_range now tza) as R.
  unfold ActivityList.dateParams. keyword.
  change (getDay tza (Some now)) with (Some (localWeekDay now tza)).
  assert (E1 : setDate tza (Some now)
                 (subtract (subtract (getDate tza (Some now)) (Some (localWeekDay now tza)))
                           (Some 1))
               = Some (now - (localWeekDay now tza + 1) * msPerDay)).
  { rewrite <- (clock_back now tza (localWeekDay now tza + 1) clock) by lia.
    unfold getDate, option_map, subtract. do 2 f_equal. lia. }
  rewrite E1.
  assert (E2 : setDate tza (Some (now - (localWeekDay now tza + 1) * msPerDay))
                 (subtract (getDate tza (Some (now - (localWeekDay now tza + 1) * msPerDay)))
                           (Some 6))
               = Some (now - (localWeekDay now tza + 1) * msPerDay - 6 * msPerDay)).
  { apply setDate_back. destruct clock as [Hz Hn]. unfold msPerDay in *. lia. }
  rewrite E2, !isoDay_dayString, !Day_back. cbn [bind].
  f_equal. f_equal; [ | f_equal]; do 2 f_equal; lia.
Qed.

Lemma dateParams_thisMonth now tza :
  ordinaryClock now tza ->
  ActivityList.dateParams now tza "thisMonth"
  = Some [("startDate", dayString (midnightDay now tza - (localDate now tza - 1)));
          ("endDate", dayString (Day now))]%string.
Proof.
  intros clock. pose proof (localDay_bounds now tza) as B.
  pose proof (midnightDay_shift now tza) as S. destruct clock as [Hz Hn].
  unfold ActivityList.dateParams. keyword.
  unfold getFullYear, getMonth, option_map, newDateYM1.
  pose proof (YearFromTime_recent (LocalTime tza now)) as Y.
  assert (Hl : - msPerDay <= LocalTime tza now) by (unfold LocalTime, msPerDay in *; lia).
  specialize (Y Hl).
  destruct (Z.leb_spec (YearFromTime (LocalTime tza now)) 99) as [C | _]; [lia | ].
  rewrite andb_false_r.
  pose proof (DateFromTime_range (LocalTime tza now)) as Rd.
  replace 1 with (DateFromTime (LocalTime tza now) + (1 - DateFromTime (LocalTime tza now)))
    at 1 by lia.
  rewrite MakeDay_shift. unfold UTC, MakeDate. rewrite Z.add_0_r.
  fold (localDay now tza) in *.
  rewrite TimeClip_Some by (unfold msPerDay in *; lia).
  cbn [bind]. rewrite !isoDay_dayString. cbn [bind].
  rewrite Day_utc_midnight, S. unfold localDate.
  generalize ((- tza) / msPerDay); intros s.
  replace (localDay now tza + (1 - DateFromTime (LocalTime tza now)) + s)
    with (localDay now tza + s - (DateFromTime (LocalTime tza now) - 1)) by lia.
  reflexivity.
Qed.

Lemma dateParams_other now tza dateRange :
  dateRange <> "today"%string -> dateRange <> "yesterday"%string ->
  dateRange <> "thisWeek"%string -> dateRange <> "lastWeek"%string ->
  dateRange <> "thisMonth"%string ->
  ActivityList.dateParams now tza dateRange = Some [].
Proof.
  intros N1 N2 N3 N4 N5. unfold ActivityList.dateParams.
  apply String.eqb_neq in N1, N2, N3, N4, N5. rewrite N1, N2, N3, N4, N5. reflexivity.
Qed.



Lemma dayString_nonempty n : String.eqb (dayString n) "" = false.
Proof.
  unfold dayString. destruct (yearField _); reflexivity.
Qed.

(** X17. A chosen project silently replaces the date filter: when the
    list sends a project, whatever the date filter, the server answers
    with the activities of that project and reads no date.  With no
    project chosen the ["today"] filter is answered by the activities of
    the UTC day of the clock, and with no date keyword either by all
    activities. *)
Theorem project_filter_overrides_date_filter
    (storage : IStorage.t) (now tza : Z) (projectTag dateRange : string)
    (params : list (string * string)) :
  ActivityList.queryParams now tza projectTag dateRange = Some params ->
  (projectTag <> ""%string -> projectTag <> "all"%string ->
   listActivities storage (queryOf params)
   = IStorage.getActivitiesByProjectTag storage projectTag)
  /\ (projectTag = ""%string \/ projectTag = "all"%string ->
      (dateRange = "today"%string ->
       listActivities storage (queryOf params)
       = IStorage.getActivitiesByDate storage (dayString (Day now)))
      /\ (dateRange = "all"%string ->
          listActivities storage (queryOf params) = IStorage.getAllActivities storage)).
Proof.
  unfold ActivityList.queryParams. intros E.
  destruct (ActivityList.dateParams now tza dateRange) as [dates | ] eqn:Ed;
    [ | discriminate E].
  cbn [bind] in E. injection E as E. subst params. split.
  - intros N1 N2. apply String.eqb_neq in N1, N2. rewrite N1, N2. cbn [negb andb app].
    unfold listActivities, queryOf. cbn [Query.projectTag parameter].
    change (String.eqb "projectTag" "projectTag") with true. cbn [nonEmptyString].
    rewrite N1. reflexivity.
  - intros P.
    assert (Ep : (negb (String.eqb projectTag "") && negb (String.eqb projectTag "all"))%bool
                 = false).
    { destruct P as [-> | ->]; reflexivity. }
    rewrite Ep. cbn [app]. split; intros ->.
    + rewrite dateParams_today in Ed. injection Ed as <-.
      unfold listActivities, queryOf. cbn [Query.projectTag Query.date parameter].
      change (String.eqb "date" "projectTag") with false.
      change (String.eqb "date" "date") with true.
      cbn [nonEmptyString]. rewrite dayString_nonempty. reflexivity.
    + rewrite dateParams_other in Ed by discriminate. injection Ed as <-. reflexivity.
Qed.

Lemma project_filter_overrides_date_filter_witness :
  listActivities sampleStorage
    (queryOf [("projectTag", "Research"); ("date", dayString (Day wednesdayNoon))]%string)
  = IStorage.getActivitiesByProjectTag sampleStorage "Research".
Proof.
  refine (proj1 (project_filter_overrides_date_filter sampleStorage wednesdayNoon utcPlus1
                   "Research" "today" _ _) _ _);
    [reflexivity | discriminate | discriminate].
Defined.



End Requests.

(** ** Grouping by date *)

Section GroupingByDate.

Context {A : Type}.
Variable dateOf : A -> string.

Local Open Scope Z_scope.

Lemma grouped_has_In (grouped : list (string * list A)) k :
  grouped_has grouped k = true <-> In k (map fst grouped).
Proof.
  induction grouped as [ | [k' v] rest IH]; cbn; [split; [discriminate | contradiction] | ].
  rewrite orb_true_iff, IH, String.eqb_eq. reflexivity.
Qed.

Lemma grouped_set_new (grouped : list (string * list A)) k v :
  ~ In k (map fst grouped) -> grouped_set grouped k v = (grouped ++ [(k, v)])%list.
Proof.
  induction grouped as [ | [k' v'] rest IH]; cbn; intros N; [reflexivity | ].
  destruct (String.eqb_spec k' k) as [E | _]; [exfalso; apply N; left; exact E | ].
  rewrite IH by tauto. reflexivity.
Qed.

Lemma filter_snoc (p : A -> bool) l a :
  filter p (l ++ [a]) = (filter p l ++ (if p a then [a] else []))%list.
Proof. rewrite filter_app. reflexivity. Qed.

Lemma groupedBy_other l a ks :
  ~ In (dateOf a) ks -> groupedBy dateOf (l ++ [a]) ks = groupedBy dateOf l ks.
Proof.
  intros N. unfold groupedBy. apply map_ext_in. intros k Hk.
  rewrite filter_snoc.
  destruct (String.eqb_spec (dateOf a) k) as [E | _]; [subst; contradiction | ].
  rewrite app_nil_r. reflexivity.
Qed.

Lemma grouped_push_present l a ks :
  NoDup ks -> In (dateOf a) ks ->
  grouped_push (groupedBy dateOf l ks) (dateOf a) a = groupedBy dateOf (l ++ [a]) ks.
Proof.
  induction ks as [ | k ks IH]; intros ND I; [contradiction | ].
  inversion ND as [ | ? ? Nk ND']; subst.
  cbn [groupedBy map grouped_push]. rewrite filter_snoc.
  destruct (String.eqb_spec k (dateOf a)) as [E | NE].
  - subst k. rewrite String.eqb_refl. fold (groupedBy dateOf l ks).
    fold (groupedBy dateOf (l ++ [a]) ks). rewrite groupedBy_other by exact Nk. reflexivity.
  - destruct (String.eqb_spec (dateOf a) k) as [E | _]; [congruence | ].
    rewrite app_nil_r. fold (groupedBy dateOf l ks). fold (groupedBy dateOf (l ++ [a]) ks).
    rewrite IH; [reflexivity | exact ND' | destruct I; [congruence | assumption]].
Qed.

Lemma grouped_push_last (grouped : list (string * list A)) k a :
  ~ In k (map fst grouped) ->
  grouped_push (grouped ++ [(k, [])]) k a = (grouped ++ [(k, [a])])%list.
Proof.
  induction grouped as [ | [k' v'] rest IH]; cbn; intros N.
  - rewrite String.eqb_refl. reflexivity.
  - destruct (String.eqb_spec k' k) as [E | _]; [exfalso; apply N; left; exact E | ].
    rewrite IH by tauto. reflexivity.
Qed.

Lemma groupedBy_keys l ks : map fst (groupedBy dateOf l ks) = ks.
Proof.
  unfold groupedBy. rewrite map_map. cbn. apply map_id.
Qed.

Lemma filter_none (p : A -> bool) l : (forall a, In a l -> p a = false) -> filter p l = [].
Proof.
  induction l as [ | x l IH]; intros H; [reflexivity | ].
  cbn. rewrite (H x) by (left; reflexivity). apply IH. intros a I. apply H. right; exact I.
Qed.

Lemma groupStep_groupedBy l a ks :
  NoDup ks -> (forall x, In x l -> In (dateOf x) ks) ->
  groupStep dateOf (groupedBy dateOf l ks) a
  = groupedBy dateOf (l ++ [a])
      (if in_dec string_dec (dateOf a) ks then ks else (ks ++ [dateOf a])%list).
Proof.
  intros ND Hl. unfold groupStep.
  destruct (in_dec string_dec (dateOf a) ks) as [I | N].
  - assert (H : grouped_has (groupedBy dateOf l ks) (dateOf a) = true)
      by (apply grouped_has_In; rewrite groupedBy_keys; exact I).
    rewrite H. cbn [negb]. apply grouped_push_present; assumption.
  - assert (H : grouped_has (groupedBy dateOf l ks) (dateOf a) = false).
    { destruct (grouped_has _ _) eqn:E; [ | reflexivity].
      apply grouped_has_In in E. rewrite groupedBy_keys in E. contradiction. }
    rewrite H. cbn [negb].
    rewrite grouped_set_new by (rewrite groupedBy_keys; exact N).
    rewrite grouped_push_last by (rewrite groupedBy_keys; exact N).
    unfold groupedBy at 2. rewrite map_app. cbn [map].
    fold (groupedBy dateOf (l ++ [a]) ks). rewrite groupedBy_other by exact N.
    rewrite filter_snoc, String.eqb_refl.
    rewrite filter_none; [reflexivity | ].
    intros x Ix. apply String.eqb_neq. intros E. apply N. rewrite <- E. apply Hl; exact Ix.
Qed.

Lemma NoDup_entered ks l : NoDup ks -> NoDup (entered ks l).
Proof.
  revert ks; induction l as [ | y l IH]; intros ks ND; cbn; [exact ND | ].
  fold (entered (if in_dec string_dec y ks then ks else (ks ++ [y])%list) l).
  apply IH. destruct (in_dec string_dec y ks) as [I | N]; [exact ND | ].
  apply NoDup_app; [exact ND | constructor; [intros [] | constructor] | ].
  intros x Hx [E | []]. subst. contradiction.
Qed.

Lemma fold_groupStep l : forall l0 ks,
  NoDup ks -> (forall x, In x l0 -> In (dateOf x) ks) ->
  fold_left (groupStep dateOf) l (groupedBy dateOf l0 ks)
  = groupedBy dateOf (l0 ++ l) (entered ks (map dateOf l)).
Proof.
  induction l as [ | a l IH]; intros l0 ks ND H0.
  - rewrite app_nil_r. reflexivity.
  - cbn [fold_left map]. rewrite groupStep_groupedBy by assumption.
    rewrite IH.
    + rewrite <- app_assoc. reflexivity.
    + destruct (in_dec string_dec (dateOf a) ks) as [I | N]; [exact ND | ].
      apply NoDup_app; [exact ND | constructor; [intros [] | constructor] | ].
      intros x Hx [E | []]. subst. contradiction.
    + intros x Hx. apply in_app_iff in Hx.
      destruct (in_dec string_dec (dateOf a) ks) as [I | N].
      * destruct Hx as [Hx | [<- | []]]; [apply H0; exact Hx | exact I].
      * apply in_app_iff. destruct Hx as [Hx | [<- | []]];
          [left; apply H0; exact Hx | right; left; reflexivity].
Qed.

(** The map of the loop: the dates in order of first appearance, each
    with its activities in their order. *)
Lemma grouped_firstSeen l :
  fold_left (groupStep dateOf) l [] = groupedBy dateOf l (firstSeen (map dateOf l)).
Proof.
  change (@nil (string * list A)) with (groupedBy dateOf [] []).
  rewrite fold_groupStep; [ | constructor | intros x []].
  rewrite entered_nil. reflexivity.
Qed.

Lemma insertSorted_Permutation {B} (compare : B -> B -> Z) x l :
  Permutation (insertSorted compare x l) (x :: l).
Proof.
  induction l as [ | y l IH]; cbn; [reflexivity | ].
  destruct (compare x y <=? 0); [reflexivity | ].
  rewrite IH. apply perm_swap.
Qed.

Lemma Array_sort_Permutation {B} (compare : B -> B -> Z) l :
  Permutation (Array_sort compare l) l.
Proof.
  induction l as [ | x l IH]; cbn; [reflexivity | ].
  rewrite insertSorted_Permutation. constructor. exact IH.
Qed.

Section Consistent.

Context {B : Type}.
Variable compare : B -> B -> Z.
Hypothesis compare_total : forall x y, 0 < compare x y -> compare y x <= 0.
Hypothesis compare_trans :
  forall x y z, compare x y <= 0 -> compare y z <= 0 -> compare x z <= 0.

Lemma insertSorted_sorted x l :
  StronglySorted (fun a b => compare a b <= 0) l ->
  StronglySorted (fun a b => compare a b <= 0) (insertSorted compare x l).
Proof.
  induction l as [ | y l IH]; intros S; cbn.
  - constructor; constructor.
  - inversion S as [ | ? ? S' F]; subst.
    destruct (Z.leb_spec (compare x y) 0) as [L | G].
    + constructor; [exact S | ]. constructor; [exact L | ].
      eapply Forall_impl; [ | exact F]. intros z Hz. eapply compare_trans; eassumption.
    + constructor; [apply IH; exact S' | ].
      eapply Permutation_Forall; [symmetry; apply insertSorted_Permutation | ].
      constructor; [apply compare_total; exact G | exact F].
Qed.

Lemma Array_sort_sorted l : StronglySorted (fun a b => compare a b <= 0) (Array_sort compare l).
Proof.
  induction l as [ | x l IH]; cbn; [constructor | apply insertSorted_sorted; exact IH].
Qed.

End Consistent.

Variable localeCompare : string -> string -> Z.

Lemma groups_Permutation activities :
  Permutation (groupActivitiesByDate dateOf localeCompare activities)
              (map (fun entry : string * list A =>
                      {| Group.date := fst entry; Group.activities := snd entry |})
                   (groupedBy dateOf activities (firstSeen (map dateOf activities)))).
Proof.
  unfold groupActivitiesByDate. rewrite grouped_firstSeen. apply Array_sort_Permutation.
Qed.

Lemma NoDup_firstSeen l : NoDup (firstSeen l).
Proof. rewrite <- entered_nil. apply NoDup_entered. constructor. Qed.

(** X19. [groupActivitiesByDate] partitions the activities by date: every
    group holds exactly the activities of its date, in the order they had
    in the input, and is not empty; no date has two groups; every
    activity is in the group of its date.  No comparator is assumed. *)
Theorem groupActivitiesByDate_partitions (activities : list A) :
  let groups := groupActivitiesByDate dateOf localeCompare activities in
  (forall group, In group groups ->
     Group.activities group
     = filter (fun a => String.eqb (dateOf a) (Group.date group)) activities
     /\ Group.activities group <> [])
  /\ NoDup (map Group.date groups)
  /\ (forall a, In a activities ->
        exists group, In group groups /\ Group.date group = dateOf a
                      /\ In a (Group.activities group))
  /\ Permutation (map Group.date groups) (firstSeen (map dateOf activities)).
Proof.
  cbn zeta. pose proof (groups_Permutation activities) as P.
  set (groups := groupActivitiesByDate dateOf localeCompare activities) in *.
  assert (M : forall group, In group groups <->
                exists k, In k (firstSeen (map dateOf activities))
                          /\ group = {| Group.date := k;
                                        Group.activities :=
                                          filter (fun a => String.eqb (dateOf a) k) activities |}).
  { intros group. split.
    - intros I. apply (Permutation_in _ P) in I. apply in_map_iff in I as [[k v] [E I]].
      unfold groupedBy in I. apply in_map_iff in I as [k' [E' I]].
      injection E' as -> <-. exists k. split; [exact I | symmetry; exact E].
    - intros [k [I ->]]. apply (Permutation_in _ (Permutation_sym P)).
      apply in_map_iff. exists (k, filter (fun a => String.eqb (dateOf a) k) activities).
      split; [reflexivity | ]. unfold groupedBy. apply in_map_iff. exists k. auto. }
  assert (Pd : Permutation (map Group.date groups) (firstSeen (map dateOf activities))).
  { rewrite P, map_map. cbn [Group.date].
    change (fun x : string * list A => fst x) with (@fst string (list A)).
    rewrite groupedBy_keys. reflexivity. }
  split; [ | split; [ | split]].
  - intros group I. apply M in I as [k [I ->]]. cbn [Group.activities Group.date].
    split; [reflexivity | ].
    apply In_firstSeen, in_map_iff in I as [a [E I]].
    intros C. assert (Ia : In a (filter (fun a => String.eqb (dateOf a) k) activities)).
    { apply filter_In. split; [exact I | apply String.eqb_eq; exact E]. }
    rewrite C in Ia. contradiction.
  - eapply Permutation_NoDup; [symmetry; exact Pd | apply NoDup_firstSeen].
  - intros a I.
    exists {| Group.date := dateOf a;
              Group.activities :=
                filter (fun x => String.eqb (dateOf x) (dateOf a)) activities |}.
    split; [ | split; [reflexivity | ]].
    + apply M. exists (dateOf a). split; [ | reflexivity].
      apply In_firstSeen, in_map. exact I.
    + apply filter_In. split; [exact I | apply String.eqb_refl].
  - exact Pd.
Qed.


End GroupingByDate.

Section GroupingSample.

Local Open Scope Z_scope.

Lemma compareByCode_total a b : 0 < compareByCode a b -> compareByCode b a <= 0.
Proof.
  unfold compareByCode. rewrite (String.compare_antisym b a).
  destruct (String.compare a b); cbn; lia.
Qed.

Lemma compareByCode_trans a b c :
  compareByCode a b <= 0 -> compareByCode b c <= 0 -> compareByCode a c <= 0.
Proof.
  unfold compareByCode. intros H1 H2.
  destruct (String.compare a b) eqn:E1; [ | | lia].
  - apply String.compare_eq_iff in E1. subst. exact H2.
  - destruct (String.compare b c) eqn:E2; [ | | lia].
    + apply String.compare_eq_iff in E2. subst. rewrite E1. lia.
    + apply OrderedTypeEx.String_as_OT.cmp_lt in E1, E2.
      pose proof (OrderedTypeEx.String_as_OT.lt_trans _ _ _ E1 E2) as L.
      apply OrderedTypeEx.String_as_OT.cmp_lt in L.
      change (OrderedTypeEx.String_as_OT.cmp a c) with (String.compare a c) in L.
      rewrite L. lia.
Qed.


End GroupingSample.

(** ** The figures of the summary *)

Section Figures.

Local Open Scope Z_scope.

Lemma totalMinutesOf_fold activities : forall start,
  fold_left (fun sum activity => sum + durationMinutes activity) activities start
  = start + totalMinutesOf activities.
Proof.
  unfold totalMinutesOf.
  induction activities as [ | a l IH]; intros start; cbn [fold_left]; [lia | ].
  rewrite (IH (start + durationMinutes a)), (IH (0 + durationMinutes a)). lia.
Qed.

Lemma totalMinutesOf_cons a activities :
  totalMinutesOf (a :: activities) = durationMinutes a + totalMinutesOf activities.
Proof.
  unfold totalMinutesOf at 1. cbn [fold_left]. rewrite totalMinutesOf_fold. lia.
Qed.

Lemma totalMinutesOf_Permutation l l' :
  Permutation l l' -> totalMinutesOf l = totalMinutesOf l'.
Proof.
  induction 1; rewrite ?totalMinutesOf_cons; lia.
Qed.

Lemma totalMinutesOf_nonneg activities :
  (forall a, In a activities -> 0 <= durationMinutes a) -> 0 <= totalMinutesOf activities.
Proof.
  induction activities as [ | a l IH]; intros H; [reflexivity | ].
  rewrite totalMinutesOf_cons.
  pose proof (H a (or_introl eq_refl)). pose proof (IH (fun x I => H x (or_intror I))). lia.
Qed.

Lemma carrierMinutes_le_total tag activities :
  (forall a, In a activities -> 0 <= durationMinutes a) ->
  0 <= carrierMinutes tag activities <= totalMinutesOf activities.
Proof.
  induction activities as [ | a l IH]; intros H; [cbn; lia | ].
  rewrite totalMinutesOf_cons. cbn [carrierMinutes].
  pose proof (H a (or_introl eq_refl)). pose proof (IH (fun x I => H x (or_intror I))).
  destruct (in_dec string_dec tag (projectTags a)); lia.
Qed.

(** The percentage expression at its ends. *)
Lemma percent_of_all b :
  0 < b -> Math_round (mul (div (of_Z b) (of_Z b)) (of_Z 100)) = of_Z 100.
Proof.
  intros Hb. assert (Pb : (0 < inject_Z b)%Q) by (apply inject_Z_pos, Hb).
  unfold of_Z, div. rewrite (Qeq_bool_pos _ Pb). unfold round64.
  rewrite (binary64_comp (inject_Z b / inject_Z b) 1) by (field; lra).
  vm_compute. reflexivity.
Qed.

Lemma percent_of_none b :
  0 < b -> Math_round (mul (div (of_Z 0) (of_Z b)) (of_Z 100)) = of_Z 0.
Proof.
  intros Hb. assert (Pb : (0 < inject_Z b)%Q) by (apply inject_Z_pos, Hb).
  unfold of_Z, div. rewrite (Qeq_bool_pos _ Pb). unfold round64.
  rewrite (binary64_comp (inject_Z 0 / inject_Z b) 0) by (field; lra).
  vm_compute. reflexivity.
Qed.

Lemma percent_of_loss b :
  0 < b -> Math_round (mul (div (of_Z (- b)) (of_Z b)) (of_Z 100)) = of_Z (- 100).
Proof.
  intros Hb. assert (Pb : (0 < inject_Z b)%Q) by (apply inject_Z_pos, Hb).
  unfold of_Z, div. rewrite (Qeq_bool_pos _ Pb). unfold round64.
  rewrite (binary64_comp (inject_Z (- b) / inject_Z b) (- (1))).
  - vm_compute. reflexivity.
  - rewrite inject_Z_opp. field. lra.
Qed.

Lemma Math_round_integer a r : Math_round a = Finite r -> exists z, r = inject_Z z.
Proof.
  destruct a as [q | s | ]; cbn [Math_round]; intros H; try discriminate H.
  injection H as <-. eexists; reflexivity.
Qed.

(** A rounded percentage between two integers is an integer between them. *)
Lemma percent_between a b lo hi :
  leb (of_Z lo) (Math_round (mul (div (of_Z a) (of_Z b)) (of_Z 100))) = true ->
  leb (Math_round (mul (div (of_Z a) (of_Z b)) (of_Z 100))) (of_Z hi) = true ->
  exists z, Math_round (mul (div (of_Z a) (of_Z b)) (of_Z 100)) = of_Z z /\ lo <= z <= hi.
Proof.
  intros L H. destruct (leb_between _ _ _ L H) as [r [E _]].
  destruct (Math_round_integer _ _ E) as [z ->].
  rewrite E in L, H. exists z. split; [exact E | ].
  change (Finite (inject_Z z)) with (of_Z z) in L, H.
  apply leb_of_Z in L, H. lia.
Qed.

(** X21. The today and week blocks of the summary do not depend on the
    order in which the queries return the activities; the top project
    does, when two projects tie. *)
Theorem summary_totals_ignore_order
    (todayActivities todayActivities' yesterdayActivities yesterdayActivities'
       weekActivities weekActivities' : list Activity) :
  Permutation todayActivities todayActivities' ->
  Permutation yesterdayActivities yesterdayActivities' ->
  Permutation weekActivities weekActivities' ->
  today (summary todayActivities yesterdayActivities weekActivities)
  = today (summary todayActivities' yesterdayActivities' weekActivities')
  /\ week (summary todayActivities yesterdayActivities weekActivities)
     = week (summary todayActivities' yesterdayActivities' weekActivities')
  /\ (exists tied tied',
        Permutation tied tied'
        /\ topProject (summary [] [] tied) <> topProject (summary [] [] tied')).
Proof.
  intros Pt Py Pw. unfold summary. cbn [today week].
  rewrite (totalMinutesOf_Permutation _ _ Pt), (totalMinutesOf_Permutation _ _ Py),
    (totalMinutesOf_Permutation _ _ Pw).
  split; [reflexivity | split; [reflexivity | ]].
  exists [sample 30 ["A"%string]; sample 30 ["B"%string]],
         [sample 30 ["B"%string]; sample 30 ["A"%string]].
  split; [apply perm_swap | ]. vm_compute. discriminate.
Qed.

Lemma summary_totals_ignore_order_witness :
  week (summary [] [] [sample 30 ["A"%string]; sample 45 ["B"%string]])
  = week (summary [] [] [sample 45 ["B"%string]; sample 30 ["A"%string]]).
Proof.
  exact (proj1 (proj2 (summary_totals_ignore_order [] [] [] []
                         [sample 30 ["A"%string]; sample 45 ["B"%string]]
                         [sample 45 ["B"%string]; sample 30 ["A"%string]]
                         (perm_nil _) (perm_nil _) (perm_swap _ _ _)))).
Defined.

(** X22. When no duration is negative and no activity lists a tag twice,
    the top project's minutes are between 0 and the week's total and its
    percentage is an integer between 0 and 100.  One activity that lists
    its tag twice is enough for a percentage of 200. *)
Theorem topProject_share_is_bounded (weekActivities : list Activity) :
  (forall a, In a weekActivities -> 0 <= durationMinutes a) ->
  (forall a, In a weekActivities -> NoDup (projectTags a)) ->
  0 <= minutes (topProjectOf weekActivities) <= totalMinutesOf weekActivities
  /\ (exists p, percentage (topProjectOf weekActivities) = of_Z p /\ 0 <= p <= 100)
  /\ percentage (topProjectOf [sample 60 ["A"%string; "A"%string]]) = of_Z 200.
Proof.
  intros Hd Hn. split; [ | split; [ | vm_compute; reflexivity]].
  - pose proof (totalMinutesOf_nonneg _ Hd) as T.
    unfold topProjectOf.
    rewrite projectMinutesOf_tabulate, entered_nil, Map_size_tabulate.
    destruct (Z.of_nat _ >? 0); [ | cbn; lia].
    destruct (maxEntry_tabulate (fun t => creditedMinutes t weekActivities)
                (firstSeen (allTags weekActivities))) as [[_ E] | [k [E [Gk _]]]];
      rewrite E; cbn [minutes]; [lia | ].
    rewrite (creditedMinutes_NoDup _ _ Hn) in *.
    pose proof (carrierMinutes_le_total k _ Hd). lia.
  - pose proof (totalMinutesOf_nonneg _ Hd) as T.
    unfold topProjectOf.
    rewrite projectMinutesOf_tabulate, entered_nil, Map_size_tabulate.
    destruct (Z.of_nat _ >? 0); [ | exists 0; cbn; split; [reflexivity | lia]].
    assert (M : exists m, maxEntry (tabulate (fun t => creditedMinutes t weekActivities)
                                      (firstSeen (allTags weekActivities))) = m
                          /\ 0 <= fst m <= totalMinutesOf weekActivities).
    { destruct (maxEntry_tabulate (fun t => creditedMinutes t weekActivities)
                  (firstSeen (allTags weekActivities))) as [[_ E] | [k [E [Gk _]]]];
        rewrite E; eexists; (split; [reflexivity | ]); cbn [fst]; [lia | ].
      rewrite (creditedMinutes_NoDup _ _ Hn) in *.
      pose proof (carrierMinutes_le_total k _ Hd). lia. }
    destruct M as [[maxMinutes maxProject] [-> R]]. cbn [fst] in R. cbn [percentage].
    destruct (Z.gtb_spec (totalMinutesOf weekActivities) 0) as [G | _];
      [ | exists 0; split; [reflexivity | lia]].
    apply percent_between.
    + pose proof (percent_mono 0 maxMinutes (totalMinutesOf weekActivities)
                    G ltac:(lia)) as Lo.
      rewrite percent_of_none in Lo by exact G. exact Lo.
    + pose proof (percent_mono maxMinutes (totalMinutesOf weekActivities)
                    (totalMinutesOf weekActivities) G ltac:(lia)) as Hi.
      rewrite percent_of_all in Hi by exact G. exact Hi.
Qed.

Lemma topProject_share_is_bounded_witness :
  exists p,
    percentage (topProjectOf [sample 60 ["A"%string]; sample 30 ["A"%string; "B"%string]])
    = of_Z p /\ 0 <= p <= 100.
Proof.
  refine (proj1 (proj2 (topProject_share_is_bounded
                          [sample 60 ["A"%string]; sample 30 ["A"%string; "B"%string]] _ _))).
  - intros a [<- | [<- | []]]; cbn; lia.
  - intros a [<- | [<- | []]]; cbn; repeat constructor; cbn; intuition discriminate.
Defined.

(** X23. For minute totals that are not negative the comparison with
    yesterday is an integer that is never below -100; it is -100 when
    nothing was logged today, not positive when today's total is not
    above yesterday's, and not negative when it is not below. *)
Theorem comparedToYesterday_is_bounded_below (todayMinutes yesterdayMinutes : Z) :
  0 <= todayMinutes <= MAX_SAFE_INTEGER -> 0 < yesterdayMinutes <= MAX_SAFE_INTEGER ->
  exists change,
    comparedToYesterdayOf todayMinutes yesterdayMinutes = of_Z change
    /\ - 100 <= change
    /\ (todayMinutes = 0 -> change = - 100)
    /\ (todayMinutes <= yesterdayMinutes -> change <= 0)
    /\ (yesterdayMinutes <= todayMinutes -> 0 <= change).
Proof.
  intros Ht Hy. unfold comparedToYesterdayOf, MAX_SAFE_INTEGER in *.
  destruct (Z.gtb_spec yesterdayMinutes 0) as [_ | C]; [ | lia].
  destruct (percent_finite (todayMinutes - yesterdayMinutes) yesterdayMinutes)
    as [z E]; [lia | lia | ].
  exists z. split; [exact E | ].
  pose proof (percent_mono (- yesterdayMinutes) (todayMinutes - yesterdayMinutes)
                yesterdayMinutes ltac:(lia) ltac:(lia)) as Lo.
  rewrite percent_of_loss, E in Lo by lia. apply leb_of_Z in Lo.
  split; [exact Lo | split; [ | split]].
  - intros ->. rewrite Z.sub_0_l, percent_of_loss in E by lia.
    apply of_Z_inj in E. lia.
  - intros H.
    pose proof (percent_mono (todayMinutes - yesterdayMinutes) 0 yesterdayMinutes
                  ltac:(lia) ltac:(lia)) as Hi.
    rewrite percent_of_none, E in Hi by lia. apply leb_of_Z in Hi. exact Hi.
  - intros H.
    pose proof (percent_mono 0 (todayMinutes - yesterdayMinutes) yesterdayMinutes
                  ltac:(lia) ltac:(lia)) as Hi.
    rewrite percent_of_none, E in Hi by lia. apply leb_of_Z in Hi. exact Hi.
Qed.

Lemma comparedToYesterday_is_bounded_below_witness :
  exists change, comparedToYesterdayOf 0 45 = of_Z change /\ change = - 100.
Proof.
  destruct (comparedToYesterday_is_bounded_below 0 45) as (z & E & _ & Z0 & _).
  - unfold MAX_SAFE_INTEGER. lia.
  - unfold MAX_SAFE_INTEGER. lia.
  - exists z. split; [exact E | apply Z0; reflexivity].
Defined.

End Figures.

(** ** The storage class *)

Section StorageClass.

Local Open Scope Z_scope.

Lemma find_snoc {X} (p : X -> bool) l x :
  find p (l ++ [x]) = match find p l with
                      | Some y => Some y
                      | None => if p x then Some x else None
                      end.
Proof.
  induction l as [ | y l IH]; cbn; [reflexivity | ].
  destruct (p y); [reflexivity | exact IH].
Qed.

Lemma getProjectTagByName_Some db name tag :
  getProjectTagByName db name = Some tag ->
  In tag (projectTagsTable db) /\ ProjectTag.name tag = name.
Proof.
  intros H. apply find_some in H as [I E]. apply String.eqb_eq in E. auto.
Qed.

Lemma getProjectTagByName_None db name :
  getProjectTagByName db name = None <-> ~ In name (tagNames db).
Proof.
  unfold getProjectTagByName, tagNames. split.
  - intros H I. apply in_map_iff in I as [tag [E I]].
    pose proof (find_none _ _ H tag I) as F. cbn in F.
    rewrite E, String.eqb_refl in F. discriminate F.
  - intros N. destruct (find _ _) as [tag | ] eqn:F; [ | reflexivity].
    apply find_some in F as [I E]. apply String.eqb_eq in E.
    exfalso. apply N. apply in_map_iff. exists tag. auto.
Qed.

(** X24. [createProjectTag] is an idempotent upsert: the tag it returns
    has the name asked for and is the one found under that name
    afterwards; a second call returns the same tag and changes nothing;
    a name already present leaves the database as it was; the tags of
    other names and the activities are untouched. *)
Theorem createProjectTag_is_idempotent (db : Database) (name : string) :
  let tag := fst (createProjectTag db name) in
  let db' := snd (createProjectTag db name) in
  ProjectTag.name tag = name
  /\ getProjectTagByName db' name = Some tag
  /\ createProjectTag db' name = (tag, db')
  /\ (In name (tagNames db) -> db' = db)
  /\ (forall other, other <> name ->
        getProjectTagByName db' other = getProjectTagByName db other)
  /\ activitiesTable db' = activitiesTable db.
Proof.
  cbn zeta. unfold createProjectTag.
  destruct (getProjectTagByName db name) as [existingTag | ] eqn:E; cbn [fst snd].
  - destruct (getProjectTagByName_Some _ _ _ E) as [_ En].
    rewrite E. repeat split; auto.
  - assert (F : getProjectTagByName
                  {| projectTagsTable :=
                       projectTagsTable db
                       ++ [{| ProjectTag.id := projectTagsSerial db; ProjectTag.name := name |}];
                     projectTagsSerial := projectTagsSerial db + 1;
                     activitiesTable := activitiesTable db;
                     activitiesSerial := activitiesSerial db |} name
                = Some {| ProjectTag.id := projectTagsSerial db; ProjectTag.name := name |}).
    { unfold getProjectTagByName in *. cbn [projectTagsTable].
      rewrite find_snoc, E. cbn [ProjectTag.name]. rewrite String.eqb_refl. reflexivity. }
    rewrite F. repeat split; auto.
    + intros I. apply getProjectTagByName_None in E. contradiction.
    + intros other N. unfold getProjectTagByName. cbn [projectTagsTable].
      rewrite find_snoc. cbn [ProjectTag.name].
      destruct (find _ (projectTagsTable db)); [reflexivity | ].
      destruct (String.eqb_spec name other); [congruence | reflexivity].
Qed.

Lemma createProjectTag_grows db name :
  exists added,
    projectTagsTable (snd (createProjectTag db name)) = (projectTagsTable db ++ added)%list
    /\ activitiesTable (snd (createProjectTag db name)) = activitiesTable db
    /\ activitiesSerial (snd (createProjectTag db name)) = activitiesSerial db
    /\ In name (tagNames (snd (createProjectTag db name))).
Proof.
  unfold createProjectTag.
  destruct (getProjectTagByName db name) as [existingTag | ] eqn:E; cbn [fst snd].
  - exists []. rewrite app_nil_r. repeat split.
    destruct (getProjectTagByName_Some _ _ _ E) as [I En].
    unfold tagNames. apply in_map_iff. exists existingTag. auto.
  - eexists. cbn [projectTagsTable activitiesTable activitiesSerial]. repeat split.
    unfold tagNames. cbn [projectTagsTable]. rewrite map_app. apply in_or_app. right.
    left. reflexivity.
Qed.

Lemma createProjectTag_consistent db name :
  consistent db -> consistent (snd (createProjectTag db name)).
Proof.
  intros (N1 & N2 & S1 & N3 & S2 & C). unfold createProjectTag.
  destruct (getProjectTagByName db name) as [existingTag | ] eqn:E; cbn [fst snd].
  - repeat split; assumption.
  - apply getProjectTagByName_None in E.
    unfold consistent, tagNames in *.
    cbn [projectTagsTable projectTagsSerial activitiesTable activitiesSerial].
    rewrite !map_app. cbn [map ProjectTag.name ProjectTag.id].
    repeat split.
    + apply NoDup_app; [exact N1 | repeat constructor; intros [] | ].
      intros x Hx [<- | []]. contradiction.
    + apply NoDup_app; [exact N2 | repeat constructor; intros [] | ].
      intros x Hx [<- | []]. apply in_map_iff in Hx as [tag [Et It]].
      specialize (S1 tag It). lia.
    + intros tag I. apply in_app_iff in I as [I | [<- | []]];
        [specialize (S1 tag I); lia | cbn; lia].
    + exact N3.
    + exact S2.
    + intros activity tagName Ia It. apply in_or_app. left. eapply C; eassumption.
Qed.

Lemma createProjectTags_consistent names : forall db,
  consistent db -> consistent (createProjectTags db names).
Proof.
  unfold createProjectTags.
  induction names as [ | n names IH]; intros db H; [exact H | ].
  cbn [fold_left]. apply IH. apply createProjectTag_consistent; exact H.
Qed.

Lemma createProjectTags_grows names : forall db,
  exists added,
    projectTagsTable (createProjectTags db names) = (projectTagsTable db ++ added)%list
    /\ activitiesTable (createProjectTags db names) = activitiesTable db
    /\ activitiesSerial (createProjectTags db names) = activitiesSerial db
    /\ (forall n, In n names -> In n (tagNames (createProjectTags db names))).
Proof.
  unfold createProjectTags.
  induction names as [ | n names IH]; intros db.
  - exists []. rewrite app_nil_r. repeat split. intros n [].
  - cbn [fold_left].
    destruct (createProjectTag_grows db n) as (added1 & T1 & A1 & S1 & I1).
    destruct (IH (snd (createProjectTag db n))) as (added2 & T2 & A2 & S2 & I2).
    exists (added1 ++ added2)%list. rewrite T2, T1, A2, A1, S2, S1, app_assoc.
    repeat split. intros m [<- | Hm]; [ | apply I2; exact Hm].
    unfold tagNames. rewrite T2, map_app. apply in_or_app. left. exact I1.
Qed.

Lemma createProjectTags_present names : forall db,
  (forall n, In n names -> In n (tagNames db)) -> createProjectTags db names = db.
Proof.
  unfold createProjectTags.
  induction names as [ | n names IH]; intros db H; [reflexivity | ].
  cbn [fold_left].
  assert (E : snd (createProjectTag db n) = db).
  { unfold createProjectTag.
    destruct (getProjectTagByName db n) eqn:F; [reflexivity | ].
    apply getProjectTagByName_None in F. exfalso. apply F, H. left. reflexivity. }
  rewrite E. apply IH. intros m Hm. apply H. right. exact Hm.
Qed.

Lemma getProjectTagByName_grows db db' added name tag :
  projectTagsTable db' = (projectTagsTable db ++ added)%list ->
  getProjectTagByName db name = Some tag -> getProjectTagByName db' name = Some tag.
Proof.
  unfold getProjectTagByName. intros -> H.
  induction (projectTagsTable db) as [ | t l IH]; [discriminate H | ].
  cbn in *. destruct (String.eqb (ProjectTag.name t) name); [exact H | apply IH; exact H].
Qed.

(** X25. [initializeDefaultTags] makes each of the five default tags
    findable under its name, keeps every tag that was there, leaves the
    activities alone, and does nothing when run a second time. *)
Theorem initializeDefaultTags_is_idempotent (db : Database) :
  let db' := initializeDefaultTags db in
  (forall name, In name defaultTags ->
     exists tag, getProjectTagByName db' name = Some tag /\ ProjectTag.name tag = name)
  /\ (forall name tag,
        getProjectTagByName db name = Some tag -> getProjectTagByName db' name = Some tag)
  /\ activitiesTable db' = activitiesTable db
  /\ initializeDefaultTags db' = db'
  /\ List.length defaultTags = 5%nat.
Proof.
  cbn zeta. unfold initializeDefaultTags.
  destruct (createProjectTags_grows defaultTags db) as (added & T & A & S & I).
  split; [ | split; [ | split; [exact A | split; [ | reflexivity]]]].
  - intros name Hn. specialize (I name Hn).
    destruct (getProjectTagByName (createProjectTags db defaultTags) name) as [tag | ] eqn:F.
    + exists tag. split; [reflexivity | ]. apply (getProjectTagByName_Some _ _ _ F).
    + apply getProjectTagByName_None in F. contradiction.
  - intros name tag H. eapply getProjectTagByName_grows; eassumption.
  - apply createProjectTags_present. exact I.
Qed.

Lemma NoDup_map_filter {X Y} (f : X -> Y) (p : X -> bool) l :
  NoDup (map f l) -> NoDup (map f (filter p l)).
Proof.
  induction l as [ | x l IH]; cbn; intros H; [constructor | ].
  inversion H as [ | ? ? N H']; subst.
  destruct (p x); [ | apply IH; exact H'].
  cbn. constructor; [ | apply IH; exact H'].
  intros I. apply N. apply in_map_iff in I as [y [E Iy]].
  apply filter_In in Iy as [Iy _]. apply in_map_iff. exists y. auto.
Qed.

Lemma createActivity_consistent db insertActivity now :
  consistent db -> consistent (snd (createActivity db insertActivity now)).
Proof.
  intros H. unfold createActivity.
  pose proof (createProjectTags_consistent (InsertActivity.projectTags insertActivity) db H)
    as (N1 & N2 & S1 & N3 & S2 & C).
  destruct (createProjectTags_grows (InsertActivity.projectTags insertActivity) db)
    as (added & T & A & S & I).
  set (db1 := createProjectTags db (InsertActivity.projectTags insertActivity)) in *.
  unfold consistent, tagNames in *.
  cbn [snd projectTagsTable projectTagsSerial activitiesTable activitiesSerial].
  rewrite map_app. cbn [map id].
  repeat split; try assumption.
  - apply NoDup_app; [exact N3 | repeat constructor; intros [] | ].
    intros x Hx [<- | []]. apply in_map_iff in Hx as [a [Ea Ia]].
    specialize (S2 a Ia). lia.
  - intros activity Ia. apply in_app_iff in Ia as [Ia | [<- | []]];
      [specialize (S2 activity Ia); lia | cbn; lia].
  - intros activity tagName Ia It. apply in_app_iff in Ia as [Ia | [<- | []]].
    + eapply C; eassumption.
    + cbn [projectTags] in It. apply I. exact It.
Qed.

Lemma deleteActivity_consistent db activityId :
  consistent db -> consistent (snd (deleteActivity db activityId)).
Proof.
  intros (N1 & N2 & S1 & N3 & S2 & C). unfold deleteActivity, consistent, tagNames in *.
  cbn [snd projectTagsTable projectTagsSerial activitiesTable activitiesSerial].
  repeat split; try assumption.
  - apply NoDup_map_filter. exact N3.
  - intros activity Ia. apply filter_In in Ia as [Ia _]. apply S2. exact Ia.
  - intros activity tagName Ia It. apply filter_In in Ia as [Ia _]. eapply C; eassumption.
Qed.

Lemma perform_consistent db operation : consistent db -> consistent (perform db operation).
Proof.
  intros H. destruct operation; cbn [perform].
  - apply createProjectTag_consistent; exact H.
  - apply createActivity_consistent; exact H.
  - apply deleteActivity_consistent; exact H.
  - apply createProjectTags_consistent; exact H.
Qed.

Lemma emptyDatabase_consistent : consistent emptyDatabase.
Proof.
  unfold consistent, emptyDatabase, tagNames. cbn.
  repeat split; try constructor; intros; contradiction.
Qed.

(** X26. The writing operations keep the database consistent: whatever
    sequence of tag creations, activity creations, deletions and tag
    initialisations runs, tag names stay unique, ids stay unique and
    below the next value of their sequence, and every tag of a stored
    activity has a row in the tag table. *)
Theorem operations_keep_database_consistent (db : Database) (operations : list Operation) :
  consistent db -> consistent (fold_left perform operations db).
Proof.
  revert db; induction operations as [ | operation operations IH]; intros db H; [exact H | ].
  cbn [fold_left]. apply IH. apply perform_consistent; exact H.
Qed.

Lemma operations_keep_database_consistent_witness :
  consistent
    (fold_left perform
       [InitializeDefaultTags; CreateActivity sampleInsert 0; CreateProjectTag "Review";
        DeleteActivity 1; CreateActivity sampleInsert 5]
       emptyDatabase).
Proof.
  exact (operations_keep_database_consistent emptyDatabase _ emptyDatabase_consistent).
Defined.

Lemma getActivityById_old db row activityId :
  (forall activity, In activity (activitiesTable db) -> id activity < id row) ->
  getActivityById
    {| projectTagsTable := projectTagsTable db;
       projectTagsSerial := projectTagsSerial db;
       activitiesTable := activitiesTable db ++ [row];
       activitiesSerial := activitiesSerial db + 1 |} activityId
  = if activityId =? id row then Some row else getActivityById db activityId.
Proof.
  intros H. unfold getActivityById. cbn [activitiesTable]. rewrite find_snoc.
  destruct (Z.eqb_spec activityId (id row)) as [-> | N].
  - rewrite Z.eqb_refl.
    destruct (find _ (activitiesTable db)) as [a | ] eqn:F; [ | reflexivity].
    apply find_some in F as [I E]. apply Z.eqb_eq in E. specialize (H a I). lia.
  - destruct (find _ (activitiesTable db)); [reflexivity | ].
    destruct (Z.eqb_spec (id row) activityId); [congruence | reflexivity].
Qed.




End StorageClass.

(** ** The tag selector *)

Section TagSelector.

Variable isBlank : string -> bool.

Lemma addTag_NoDup selectedTags tag :
  NoDup selectedTags -> NoDup (ProjectTagSelector.addTag isBlank selectedTags tag).
Proof.
  intros H. unfold ProjectTagSelector.addTag.
  destruct (isBlank tag); cbn [orb]; [exact H | ].
  destruct (includes tag selectedTags) eqn:E; [exact H | ].
  apply includes_false in E.
  apply NoDup_app; [exact H | repeat constructor; intros [] | ].
  intros x Hx [<- | []]. contradiction.
Qed.

Lemma addTag_In selectedTags tag x :
  In x (ProjectTagSelector.addTag isBlank selectedTags tag) ->
  In x selectedTags \/ (x = tag /\ isBlank tag = false).
Proof.
  unfold ProjectTagSelector.addTag.
  destruct (isBlank tag); cbn [orb]; [auto | ].
  destruct (includes tag selectedTags); [auto | ].
  intros H. apply in_app_iff in H as [H | [<- | []]]; auto.
Qed.

Lemma handleEvent_NoDup selectedTags event :
  NoDup selectedTags -> NoDup (handleEvent isBlank selectedTags event).
Proof.
  intros H. destruct event as [tag | inputValue | tag]; cbn [handleEvent].
  - apply addTag_NoDup; exact H.
  - unfold ProjectTagSelector.createTag.
    destruct (_ && _); [apply addTag_NoDup; exact H | exact H].
  - unfold ProjectTagSelector.removeTag. apply NoDup_filter. exact H.
Qed.

Lemma handleEvent_In selectedTags event x :
  In x (handleEvent isBlank selectedTags event) -> In x selectedTags \/ isBlank x = false.
Proof.
  destruct event as [tag | inputValue | tag]; cbn [handleEvent]; intros H.
  - apply addTag_In in H as [H | [-> H]]; auto.
  - unfold ProjectTagSelector.createTag in H.
    destruct (_ && _); [apply addTag_In in H as [H | [-> H]]; auto | auto].
  - unfold ProjectTagSelector.removeTag in H. apply filter_In in H as [H _]. auto.
Qed.

(** X29. The tags chosen in the selector are never repeated: from a
    selection without repetition, whatever the user picks, confirms or
    takes away, the selection has no tag twice, and every tag in it was
    there at the start or is not blank.  Taking a tag away removes it,
    and picking a tag that is selected changes nothing. *)
Theorem selected_tags_are_never_repeated
    (selectedTags : list string) (events : list SelectorEvent) :
  NoDup selectedTags ->
  NoDup (fold_left (handleEvent isBlank) events selectedTags)
  /\ (forall tag, In tag (fold_left (handleEvent isBlank) events selectedTags) ->
        In tag selectedTags \/ isBlank tag = false)
  /\ (forall tag, ~ In tag (ProjectTagSelector.removeTag selectedTags tag))
  /\ (forall tag, In tag selectedTags ->
        ProjectTagSelector.addTag isBlank selectedTags tag = selectedTags).
Proof.
  intros H. split; [ | split; [ | split]].
  - revert selectedTags H. induction events as [ | event events IH]; intros selectedTags H;
      [exact H | ].
    cbn [fold_left]. apply IH. apply handleEvent_NoDup; exact H.
  - clear H. revert selectedTags.
    induction events as [ | event events IH]; intros selectedTags tag I; [auto | ].
    cbn [fold_left] in I. apply IH in I as [I | I]; [ | auto].
    apply handleEvent_In in I. exact I.
  - intros tag I. unfold ProjectTagSelector.removeTag in I.
    apply filter_In in I as [_ I]. rewrite String.eqb_refl in I. discriminate I.
  - intros tag I. unfold ProjectTagSelector.addTag.
    apply includes_In in I. rewrite I, orb_true_r. reflexivity.
Qed.

End TagSelector.

Lemma selected_tags_are_never_repeated_witness :
  NoDup (fold_left (handleEvent (fun tag => String.eqb tag ""))
           [PickTag "Research"; ConfirmInput "Review"; PickTag "Research";
            TakeAway "Review"; ConfirmInput ""; ConfirmInput "Review"]%string
           []).
Proof.
  exact (proj1 (selected_tags_are_never_repeated (fun tag => String.eqb tag "") []
                  [PickTag "Research"; ConfirmInput "Review"; PickTag "Research";
                   TakeAway "Review"; ConfirmInput ""; ConfirmInput "Review"]%string
                  (NoDup_nil string))).
Defined.
